(** * ratiometry_script.py: control logic of the ratiometry batch script

    A shallow embedding of [src/ratiometry_script.py] (a Jython script run
    inside Fiji).  The image-processing plugins are external calls: the
    embedding records each completed call as an event of a trace and lets
    the environment decide what a call returns and whether it raises.  The
    Python globals the script threads through its loops ([thresh_value],
    [min_thresh_value], [pad_number]) are an explicit state.

    Library functions of Python used by the script ([os.path], [fnmatch],
    [os.walk], [sorted], [range]) are modelled after their CPython 2.7
    sources on a POSIX host, which is what Jython ships. *)

From Stdlib Require Import ZArith List String Ascii Bool Lia PrimFloat.
From Stdlib Require Import Sorting.Sorted Sorting.Permutation Sorting.Mergesort.
From Stdlib Require Import Orders DecimalString.
Import ListNotations.

Set Warnings "-register-all".


Local Open Scope string_scope.
Local Open Scope list_scope.
Local Open Scope Z_scope.

(** ** Python values the script compares and passes around *)

(** [thresh_value] starts as the int [0] (line 234) and later holds the
    double returned by [getMaxThreshold()]. *)
Inductive pynum : Type :=
| PyInt (z : Z)
| PyFloat (f : float).

(** [v == 0] in Python: numeric comparison, so [0.0 == 0] and [-0.0 == 0]
    hold and [nan == 0] does not. *)
Definition py_eq_zero (v : pynum) : bool :=
  match v with
  | PyInt z => Z.eqb z 0
  | PyFloat f => PrimFloat.eqb f 0%float
  end.

(** [range(n)] *)
Definition py_range (n : Z) : list Z :=
  map Z.of_nat (seq 0 (Z.to_nat n)).

(** [enumerate(l)] *)
Definition enumerate {A : Type} (l : list A) : list (Z * A) :=
  combine (map Z.of_nat (seq 0 (List.length l))) l.

(** [str(n)] for a Python int, and its [len]. *)
Definition py_str_int (n : Z) : string :=
  NilEmpty.string_of_int (Z.to_int n).

(** ** Strings and [os.path] (posixpath) *)

Module PosixPath.

Definition sep : ascii := "/"%char.
Definition extsep : ascii := "."%char.

Fixpoint rfind_from (c : ascii) (s : string) (i last : Z) : Z :=
  match s with
  | EmptyString => last
  | String a r => rfind_from c r (i + 1) (if Ascii.eqb a c then i else last)
  end.

(** [s.rfind(c)]: the highest index of [c] in [s], or [-1]. *)
Definition rfind (c : ascii) (s : string) : Z := rfind_from c s 0 (-1).

Fixpoint drop (n : nat) (s : string) : string :=
  match n, s with
  | O, _ => s
  | S n', String _ r => drop n' r
  | S _, EmptyString => EmptyString
  end.

Fixpoint take (n : nat) (s : string) : string :=
  match n, s with
  | O, _ => EmptyString
  | S n', String a r => String a (take n' r)
  | S _, EmptyString => EmptyString
  end.

(** [s[i:]] and [s[:i]] for [i >= 0]. *)
Definition slice_from (i : Z) (s : string) : string := drop (Z.to_nat i) s.
Definition slice_to (i : Z) (s : string) : string := take (Z.to_nat i) s.

Fixpoint existsb_char (p : ascii -> bool) (s : string) : bool :=
  match s with
  | EmptyString => false
  | String a r => p a || existsb_char p r
  end.

(** [s.startswith(t)] and [s.endswith(t)]. *)
Definition startswith (s t : string) : bool := String.prefix t s.

Definition endswith (s t : string) : bool :=
  (String.length t <=? String.length s)%nat
  && String.eqb (drop (String.length s - String.length t) s) t.

(** [os.path.basename(p)]: [i = p.rfind('/') + 1; return p[i:]]. *)
Definition basename (p : string) : string :=
  let i := rfind sep p + 1 in
  slice_from i p.

(** [os.path.splitext(p)], that is [genericpath._splitext(p, '/', None, '.')]:
    split at the last dot when it lies after the last separator and some
    character between them is not a dot. *)
Definition splitext (p : string) : string * string :=
  let sepIndex := rfind sep p in
  let dotIndex := rfind extsep p in
  if dotIndex >? sepIndex then
    let filenameIndex := sepIndex + 1 in
    if existsb_char (fun c => negb (Ascii.eqb c extsep))
         (slice_to (dotIndex - filenameIndex) (slice_from filenameIndex p))
    then (slice_to dotIndex p, slice_from dotIndex p)
    else (p, EmptyString)
  else (p, EmptyString).

(** [os.path.join(a, b)] with one component. *)
Definition join (a b : string) : string :=
  if startswith b "/" then b
  else if String.eqb a "" || endswith a "/" then (a ++ b)%string
  else (a ++ "/" ++ b)%string.

End PosixPath.

(** ** [fnmatch]: shell patterns *)

Module Fnmatch.

(** The regular expression [fnmatch.translate] builds, as a token list.
    [TSet neg body] is the character set [[body]] (or [[^body]]). *)
Inductive tok : Type :=
| TStar
| TAny
| TSet (neg : bool) (body : list ascii)
| TLit (c : ascii).

Definition rbracket : ascii := "]"%char.

(** The scan for the closing bracket in [translate]: [j] starts after
    the opening bracket, skips one ["!"], then one ["]"], then runs to the
    next ["]"].  Returns the text between the brackets and the rest of the
    pattern, or [None] when the pattern ends first. *)
Fixpoint until_rbracket (pat : list ascii) : option (list ascii * list ascii) :=
  match pat with
  | [] => None
  | c :: r =>
      if Ascii.eqb c rbracket then Some ([], r)
      else match until_rbracket r with
           | Some (stuff, rest) => Some (c :: stuff, rest)
           | None => None
           end
  end.

Definition skip1 (c : ascii) (pat : list ascii) : list ascii * list ascii :=
  match pat with
  | a :: r => if Ascii.eqb a c then ([a], r) else ([], pat)
  | [] => ([], [])
  end.

Definition find_close (pat : list ascii) : option (list ascii * list ascii) :=
  let '(bang, p1) := skip1 "!"%char pat in
  let '(brk, p2) := skip1 rbracket p1 in
  match until_rbracket p2 with
  | Some (stuff, rest) => Some (bang ++ brk ++ stuff, rest)
  | None => None
  end.

(** [fnmatch.translate(pat)]; the fuel bounds the number of pattern
    characters consumed and [length pat] always suffices. *)
Fixpoint translate_fuel (fuel : nat) (pat : list ascii) : list tok :=
  match fuel, pat with
  | O, _ => []
  | _, [] => []
  | S fuel', c :: rest =>
      if Ascii.eqb c "*"%char then TStar :: translate_fuel fuel' rest
      else if Ascii.eqb c "?"%char then TAny :: translate_fuel fuel' rest
      else if Ascii.eqb c "["%char then
        match find_close rest with
        | None => TLit c :: translate_fuel fuel' rest
        | Some (stuff, rest') =>
            match stuff with
            | "!"%char :: body => TSet true body :: translate_fuel fuel' rest'
            | _ => TSet false stuff :: translate_fuel fuel' rest'
            end
        end
      else TLit c :: translate_fuel fuel' rest
  end.

Definition translate (pat : string) : list tok :=
  let p := list_ascii_of_string pat in
  translate_fuel (List.length p) p.

Definition char_le (a b : ascii) : bool :=
  (N_of_ascii a <=? N_of_ascii b)%N.

(** Membership in a regular-expression character set whose body is
    [body]: single characters and ranges [lo-hi].  [None] is the
    [re.error] that compiling a reversed range raises. *)
Fixpoint set_member_fuel (fuel : nat) (body : list ascii) (x : ascii)
  : option bool :=
  match fuel with
  | O => Some false
  | S fuel' =>
      match body with
      | [] => Some false
      | lo :: "-"%char :: hi :: rest =>
          if char_le lo hi then
            match set_member_fuel fuel' rest x with
            | Some b => Some ((char_le lo x && char_le x hi) || b)
            | None => None
            end
          else None
      | c :: rest =>
          match set_member_fuel fuel' rest x with
          | Some b => Some (Ascii.eqb c x || b)
          | None => None
          end
      end
  end.

Definition set_member (body : list ascii) (x : ascii) : option bool :=
  set_member_fuel (List.length body) body x.

(** [re.compile] fails when some set of the expression is malformed. *)
Definition set_ok (t : tok) : bool :=
  match t with
  | TSet _ body =>
      match set_member body "a"%char with Some _ => true | None => false end
  | _ => true
  end.

Definition tok_accepts (t : tok) (x : ascii) : bool :=
  match t with
  | TStar => true
  | TAny => true
  | TLit c => Ascii.eqb c x
  | TSet neg body =>
      match set_member body x with
      | Some b => xorb neg b
      | None => false
      end
  end.

(** [re.match] of the translated expression, anchored at both ends
    (the expression ends in [\Z]) with [.] matching every character
    (flag [s]). *)
Fixpoint matches (ts : list tok) (s : list ascii) : bool :=
  match ts with
  | [] => match s with [] => true | _ => false end
  | TStar :: ts' =>
      (fix star (s : list ascii) : bool :=
         matches ts' s
         || match s with
            | [] => false
            | _ :: s' => star s'
            end) s
  | t :: ts' =>
      match s with
      | [] => false
      | x :: s' => tok_accepts t x && matches ts' s'
      end
  end.

(** [fnmatch.filter(names, pat)] on a POSIX host ([normcase] is the
    identity).  [None] when compiling the pattern raises. *)
Definition filter (names : list string) (pat : string) : option (list string) :=
  let ts := translate pat in
  if forallb set_ok ts then
    Some (List.filter (fun name => matches ts (list_ascii_of_string name)) names)
  else None.

End Fnmatch.

(** ** The directory tree and [os.walk] *)

Inductive node : Type :=
| File (name : string)
| Dir (name : string) (entries : list node).

Definition dirnames (entries : list node) : list string :=
  flat_map (fun n => match n with Dir d _ => [d] | File _ => [] end) entries.

Definition filenames (entries : list node) : list string :=
  flat_map (fun n => match n with File f => [f] | Dir _ _ => [] end) entries.

(** [os.walk(top)], top-down, where [root] is what lies at the path [top]:
    the triple of [top] itself, then the walk of every sub-directory.
    [os.listdir] fails on something that is not a directory and [os.walk]
    swallows that error: nothing is yielded. *)
Fixpoint os_walk (top : string) (root : node)
  : list (string * list string * list string) :=
  match root with
  | File _ => []
  | Dir _ entries =>
      (top, dirnames entries, filenames entries)
        :: (fix subdirs (es : list node)
              : list (string * list string * list string) :=
              match es with
              | [] => []
              | e :: es' =>
                  match e with
                  | File _ => []
                  | Dir d _ => os_walk (PosixPath.join top d) e
                  end ++ subdirs es'
              end) entries
  end.

(** ** [getFileList] (lines 35-57) *)

Fixpoint getFileList_loop (triples : list (string * list string * list string))
    (filteringString : string) (files : list string) : option (list string) :=
  match triples with
  | [] => Some files
  | (dirpath, _, fnames) :: rest =>
      match Fnmatch.filter fnames ("*" ++ filteringString)%string with
      | None => None
      | Some matched =>
          getFileList_loop rest filteringString
            (files ++ map (fun f => PosixPath.join dirpath f) matched)
      end
  end.

(** [root] is the tree found at the path [directory].  [None] is the
    [re.error] of a pattern that does not compile. *)
Definition getFileList (root : node) (directory filteringString : string)
  : option (list string) :=
  getFileList_loop (os_walk directory root) filteringString [].

(** ** [sorted] on a list of [str] *)

Module StringOrder <: TotalLeBool.
Definition t := string.
Definition leb (x y : string) : bool := String.leb x y.
Definition leb_total
  : forall a1 a2, is_true (leb a1 a2) \/ is_true (leb a2 a1) :=
  String.leb_total.
End StringOrder.

Module StringSort := Sort StringOrder.

(** The order of [str]: code point by code point. *)
Definition str_le (a b : string) : Prop := String.leb a b = true.

(** [sorted(files)]: a stable merge sort by code-point order. *)
Definition sorted (files : list string) : list string := StringSort.sort files.

(** ** [get_series_info_from_ome_metadata] (lines 126-158), the loop *)

(** One turn of the loop at lines 147-154; the state is
    [(resolution_count, series_index)]. *)
Definition series_index_step (getResolutionCount : Z -> Z)
    (st : Z * list Z) (i : Z) : Z * list Z :=
  let '(resolution_count, series_index) := st in
  if i =? 0 then
    let resolution_count := 0 in
    (resolution_count, series_index ++ [resolution_count])
  else
    let resolution_count := resolution_count + getResolutionCount (i - 1) in
    (resolution_count, series_index ++ [resolution_count]).

(** [resolution_count] is unbound before the loop; its first turn ([i = 0])
    assigns it before any read, so the initial value below is never used. *)
Definition series_info (series_count : Z) (getResolutionCount : Z -> Z)
  : Z * list Z :=
  (series_count,
   snd (fold_left (series_index_step getResolutionCount)
          (py_range series_count) (0, []))).

(** ** External calls, the trace and the environment *)

(** The image objects one turn of the series loop creates, named after
    the variables that hold them.  [imp_result] is bound twice: first to
    the quotient of the two channels ([ImpQuotient], line 329), then to the
    masked product ([ImpResult], line 330). *)
Inductive role : Type :=
| Imp | ImpC1 | ImpC2 | ImpSegment | ImpLaplace | ImpQuotient | ImpResult.

Record img : Type := mkImg {
  img_file : Z;      (* [file_id] of the file loop *)
  img_series : Z;    (* [series] of the series loop *)
  img_role : role
}.

(** One constructor per external call the script makes; a trace lists the
    calls that completed, in order. *)
Inductive event : Type :=
| IJ_log (message : string)
| Timed_log (message : string)
| Progress_log (line_number : Z) (prefix : string) (x rest progress total : Z)
| Print (what : string)
| Reader_setId (path : string)
| Reader_setSeries (path : string) (i : Z)
| Reader_close (path : string)
| BF_openImagePlus (path : string) (series_number : Z) (imp : img)
| IJ_run (imp : img) (command options : string)
| IJ_run_current (command options : string)
| Duplicator_run (src : img) (channel : Z) (dup : img)
| SetTitle (imp : img) (title : string)
| Show (imp : img)
| Hide (imp : img)
| IJ_selectWindow (title : string)
| IJ_getImage (imp : img)
| IJ_setAutoThreshold (imp : img) (method : string)
| WaitForUserDialog (text : string) (shown : img)
| GetMaxThreshold (imp : img)
| GetMinThreshold (imp : img)
| IJ_setThreshold (imp : img) (lower upper : pynum)
| Prefs_blackBackground (b : bool)
| IsInvertedLut (imp : img)
| ImageCalculator_run (op : string) (a b result : img)
| SetDisplayRange (imp : img) (lo hi : Z)
| IJ_saveAs (imp : img) (format path : string)
| Close (imp : img)
| Exporter_run (imp : img) (arg : string)
| Os_makedirs (path : string).

(** What the script cannot decide: the files on disk, what Bio-Formats
    reports, what the operator chooses in the threshold dialog, and which
    external calls raise. *)
Record world : Type := mkWorld {
  fs : node;                                  (* the tree at [src_dir] *)
  path_exists : string -> bool;               (* [os.path.exists] *)
  series_count : string -> Z;                 (* [reader.getSeriesCount()] *)
  resolution_count : string -> Z -> Z;        (* [reader.getResolutionCount()] *)
  user_thresholds : img -> float * float;     (* (min, max) left by the dialog *)
  inverted_lut : img -> bool;                 (* [isInvertedLut()] *)
  faulty : event -> bool                      (* the call raises *)
}.

Definition healthy (w : world) : Prop := forall ev, faulty w ev = false.

(** The script parameters (lines 1-7). *)
Record config : Type := mkConfig {
  src_dir : string;
  out_dir : string;
  filename_filter : string;
  seg_chnl : Z;
  do_stackreg : bool;
  thresh_method : string
}.

(** The module-level variables that outlive one turn of a loop.
    [min_thresh_value] is unbound ([None]) until line 308 runs. *)
Record globals : Type := mkGlobals {
  thresh_value : pynum;
  min_thresh_value : option pynum;
  pad_number : Z
}.

Inductive exn : Type :=
| NameError (name : string)
| IndexError
| ZeroDivisionError
| ReError
| Failure (ev : event).

Inductive outcome (A : Type) : Type :=
| Ok (a : A) (g : globals)
| Raise (e : exn).
Arguments Ok {A} a g.
Arguments Raise {A} e.

(** A computation reads the globals and yields the calls it completed and
    either a value with the new globals or the exception that ended it. *)
Definition M (A : Type) : Type := globals -> list event * outcome A.

Definition ret {A : Type} (a : A) : M A := fun g => ([], Ok a g).

Definition bind {A B : Type} (m : M A) (k : A -> M B) : M B :=
  fun g =>
    match m g with
    | (t1, Ok a g1) => let '(t2, o) := k a g1 in (t1 ++ t2, o)
    | (t1, Raise e) => (t1, Raise e)
    end.

Declare Scope py_scope.
Delimit Scope py_scope with py.
Notation "x <- m ;; k" := (bind m (fun x => k))
  (at level 61, m at next level, right associativity) : py_scope.
Notation "m ;; k" := (bind m (fun _ => k))
  (at level 61, right associativity) : py_scope.
Local Open Scope py_scope.

Definition raise {A : Type} (e : exn) : M A := fun _ => ([], Raise e).

Definition call (w : world) (ev : event) : M unit :=
  fun g => if faulty w ev then ([], Raise (Failure ev)) else ([ev], Ok tt g).

Definition get_thresh_value : M pynum := fun g => ([], Ok (thresh_value g) g).

(** Reading a name that was never assigned raises [NameError]. *)
Definition get_min_thresh_value : M pynum :=
  fun g =>
    match min_thresh_value g with
    | Some v => ([], Ok v g)
    | None => ([], Raise (NameError "min_thresh_value"))
    end.

Definition get_pad_number : M Z := fun g => ([], Ok (pad_number g) g).

Definition set_thresh_value (v : pynum) : M unit :=
  fun g => ([], Ok tt (mkGlobals v (min_thresh_value g) (pad_number g))).

Definition set_min_thresh_value (v : pynum) : M unit :=
  fun g => ([], Ok tt (mkGlobals (thresh_value g) (Some v) (pad_number g))).

Definition set_pad_number (n : Z) : M unit :=
  fun g => ([], Ok tt (mkGlobals (thresh_value g) (min_thresh_value g) n)).

Definition when (b : bool) (m : M unit) : M unit := if b then m else ret tt.

(** [for a in l: body(a)] *)
Fixpoint for_ {A : Type} (l : list A) (body : A -> M unit) : M unit :=
  match l with
  | [] => ret tt
  | a :: l' => body a ;; for_ l' body
  end.

(** A loop that threads local variables [s] through its turns. *)
Fixpoint for_fold {A S : Type} (l : list A) (body : S -> A -> M S) (s : S) : M S :=
  match l with
  | [] => ret s
  | a :: l' => s' <- body s a ;; for_fold l' body s'
  end.

(** ** The helper functions of the script *)

(** [BFExport] (lines 79-100); the script never calls it. *)
Definition BFExport (w : world) (imp : img) (savepath : string) : M unit :=
  let paramstring :=
    ("outfile=[" ++ savepath
       ++ "] windowless=true compression=Uncompressed saveROI=false")%string in
  call w (Print savepath) ;;
  call w (Exporter_run imp paramstring).

(** [progress_bar] (lines 103-123); [/] is Python 2 integer division. *)
Definition progress_bar (w : world) (progress total line_number : Z)
    (prefix : string) : M unit :=
  let size := 30 in
  if total =? 0 then raise ZeroDivisionError
  else
    let x := size * progress / total in
    call w (Progress_log line_number prefix x (size - x) progress total).

(** [get_series_info_from_ome_metadata] (lines 126-158). *)
Definition get_series_info_from_ome_metadata (w : world) (path_to_file : string)
  : M (Z * list Z) :=
  call w (Reader_setId path_to_file) ;;
  let n := series_count w path_to_file in
  st <- for_fold (py_range n)
          (fun st i =>
             when (negb (i =? 0)) (call w (Reader_setSeries path_to_file (i - 1))) ;;
             ret (series_index_step (resolution_count w path_to_file) st i))
          (0, []) ;;
  call w (Reader_close path_to_file) ;;
  ret (n, snd st).

(** [open_single_series_with_BF] (lines 161-186); [imp] names the image
    object Bio-Formats hands back. *)
Definition open_single_series_with_BF (w : world) (path_to_file : string)
    (series_number : Z) (imp : img) : M img :=
  call w (BF_openImagePlus path_to_file series_number imp) ;;
  ret imp.

(** [check_folder] (lines 189-198); the script never calls it. *)
Definition check_folder (w : world) (path : string) : M unit :=
  when (negb (path_exists w path)) (call w (Os_makedirs path)).

(** [timed_log] (lines 201-209); the time stamp is left out of the event. *)
Definition timed_log (w : world) (message : string) : M unit :=
  call w (Timed_log message).

(** [l[i]] *)
Definition py_index (l : list Z) (i : Z) : M Z :=
  match nth_error l (Z.to_nat i) with
  | Some v => ret v
  | None => raise IndexError
  end.

(** ** Variables (lines 214-219) *)

(** [str(blur_radius)], [str(Double(laplace_radius))], [str(back_subtract)]. *)
Definition blur_radius_str : string := "1.5".
Definition laplace_radius_str : string := "1.0".
Definition back_subtract : Z := 20.
Definition min_display : Z := 0.
Definition max_display : Z := 3.

(** ** Main code: one turn of the series loop (lines 254-352) *)

(** Lines 258-264.  [basename] comes in from the file loop, where line 243
    stripped its extension; line 258 rebinds it to the full file name before
    the output name is built. *)
Definition out_ratio (cfg : config) (file basename : string) : string :=
  let basename := PosixPath.basename file in
  if do_stackreg cfg
  then PosixPath.join (out_dir cfg) (basename ++ "_ratio_chnlaligned.tif")%string
  else PosixPath.join (out_dir cfg) (basename ++ "_ratio.tif")%string.

(** Lines 296-317: the threshold of the edge image. *)
Definition threshold_block (cfg : config) (w : world) (imp_laplace : img) : M unit :=
  (if String.eqb (thresh_method cfg) "Fully automatic" then
     call w (IJ_setAutoThreshold imp_laplace "Moments") ;;
     call w (IJ_run imp_laplace "Convert to Mask"
               "method=Moments  background=Dark black")
   else
     tv <- get_thresh_value ;;
     if py_eq_zero tv then
       call w (Show imp_laplace) ;;
       call w (IJ_run_current "Threshold..." "") ;;
       call w (WaitForUserDialog "Set manual threshold, then click OK" imp_laplace) ;;
       call w (GetMaxThreshold imp_laplace) ;;
       set_thresh_value (PyFloat (snd (user_thresholds w imp_laplace))) ;;
       call w (GetMinThreshold imp_laplace) ;;
       set_min_thresh_value (PyFloat (fst (user_thresholds w imp_laplace))) ;;
       call w (Hide imp_laplace)
     else ret tt) ;;
  lower <- get_min_thresh_value ;;
  upper <- get_thresh_value ;;
  call w (IJ_setThreshold imp_laplace lower upper) ;;
  call w (Prefs_blackBackground false) ;;
  call w (IJ_run imp_laplace "Convert to Mask" "") ;;
  when (String.eqb (thresh_method cfg) "Fully manual")
    (set_thresh_value (PyInt 0)).

Definition series_body (cfg : config) (w : world) (file_id : Z)
    (file basename : string) (series_count : Z) (series_index : list Z)
    (series : Z) : M unit :=
  let new := mkImg file_id series in
  progress_bar w (series + 1) series_count 2 "Opening series : " ;;
  series_number <- py_index series_index series ;;
  imp <- open_single_series_with_BF w file series_number (new Imp) ;;
  let out_ratio := out_ratio cfg file basename in
  when (do_stackreg cfg) (call w (IJ_run imp "StackReg" "transformation=[Affine]")) ;;
  call w (IJ_run imp "32-bit" "") ;;
  call w (IJ_run imp "Gaussian Blur..." ("sigma=" ++ blur_radius_str ++ " stack")%string) ;;
  let imp_c1 := new ImpC1 in
  call w (Duplicator_run imp 1 imp_c1) ;;
  call w (SetTitle imp_c1 "C1") ;;
  let imp_c2 := new ImpC2 in
  call w (Duplicator_run imp 2 imp_c2) ;;
  call w (SetTitle imp_c2 "C2") ;;
  let imp_segment := new ImpSegment in
  call w (Duplicator_run imp (seg_chnl cfg) imp_segment) ;;
  call w (SetTitle imp_segment "Backsubtract") ;;
  call w (IJ_run imp_segment "Subtract Background..."
            ("rolling=" ++ py_str_int back_subtract)%string) ;;
  call w (Show imp_segment) ;;
  call w (IJ_selectWindow "Backsubtract") ;;
  call w (IJ_run_current "FeatureJ Laplacian"
            ("compute smoothing=" ++ laplace_radius_str)%string) ;;
  let imp_laplace := new ImpLaplace in
  call w (IJ_getImage imp_laplace) ;;
  call w (Hide imp_segment) ;;
  call w (Hide imp_laplace) ;;
  threshold_block cfg w imp_laplace ;;
  call w (IsInvertedLut imp_laplace) ;;
  when (inverted_lut w imp_laplace) (call w (IJ_run imp_laplace "Invert LUT" "")) ;;
  call w (IJ_run imp_laplace "32-bit" "") ;;
  call w (IJ_setAutoThreshold imp_laplace "Default dark") ;;
  call w (IJ_run imp_laplace "NaN Background" "") ;;
  call w (IJ_run imp_laplace "Divide..." "value=255") ;;
  let imp_quotient := new ImpQuotient in
  call w (ImageCalculator_run "Divide create 32-bit" imp_c1 imp_c2 imp_quotient) ;;
  let imp_result := new ImpResult in
  call w (ImageCalculator_run "Multiply create 32-bit" imp_quotient imp_laplace imp_result) ;;
  call w (IJ_run imp_result "Green Fire Blue" "") ;;
  call w (IJ_run imp_result "Select None" "") ;;
  call w (SetDisplayRange imp_result min_display max_display) ;;
  call w (IJ_run imp_result "Calibration Bar..."
            "location=[Upper Right] fill=White label=Black number=5 decimal=3 font=12 zoom=1 overlay") ;;
  call w (IJ_saveAs imp_result "Tiff" out_ratio) ;;
  call w (Close imp) ;;
  call w (Close imp_result) ;;
  call w (Close imp_c1) ;;
  call w (Close imp_c2) ;;
  call w (Close imp_laplace) ;;
  call w (Close imp_segment).

(** ** Main code: the file loop (lines 239-253) and the script (lines 223-354) *)

Definition file_body (cfg : config) (w : world) (n_files : Z)
    (item : Z * string) : M unit :=
  let '(file_id, file) := item in
  let basename := PosixPath.basename file in
  let basename := fst (PosixPath.splitext basename) in
  progress_bar w (file_id + 1) n_files 1
    ("Processing: " ++ py_str_int file_id)%string ;;
  info <- get_series_info_from_ome_metadata w file ;;
  let '(series_count, series_index) := info in
  pn <- get_pad_number ;;
  when (pn =? 0)
    (set_pad_number (Z.of_nat (String.length (py_str_int series_count)))) ;;
  for_ (py_range series_count)
    (series_body cfg w file_id file basename series_count series_index).

Definition main (cfg : config) (w : world) : M unit :=
  call w (IJ_log "\Clear") ;;
  timed_log w "Script starting" ;;
  files <- match getFileList (fs w) (src_dir cfg) (filename_filter cfg) with
           | Some files => ret files
           | None => raise ReError
           end ;;
  set_pad_number 0 ;;
  set_thresh_value (PyInt 0) ;;
  match files with
  | [] => ret tt
  | _ :: _ =>
      for_ (enumerate (sorted files)) (file_body cfg w (Z.of_nat (List.length files)))
  end ;;
  timed_log w "Script finished !".

(** Before the script runs no module-level variable is bound; [main]
    assigns [pad_number] and [thresh_value] before it reads them, so only
    the [None] of [min_thresh_value] matters here. *)
Definition unbound : globals := mkGlobals (PyInt 0) None 0.

Definition run (cfg : config) (w : world) : list event * outcome unit :=
  main cfg w unbound.

(** The sum of the resolution counts of the series before [i]. *)
Definition offset (getResolutionCount : Z -> Z) (i : Z) : Z :=
  fold_left Z.add (map getResolutionCount (py_range i)) 0.

(** ** What a trace shows *)

(** The calls that matter for the threshold logic. *)
Inductive obs : Type :=
| Opened (imp : img)
| Prompted (shown : img)
| Thresholded (imp : img) (lower upper : pynum).

Definition observe (ev : event) : list obs :=
  match ev with
  | BF_openImagePlus _ _ imp => [Opened imp]
  | WaitForUserDialog _ shown => [Prompted shown]
  | IJ_setThreshold imp lower upper => [Thresholded imp lower upper]
  | _ => []
  end.

Definition observations (tr : list event) : list obs := flat_map observe tr.

(** The images on screen at each threshold dialog, in order. *)
Definition prompts (tr : list event) : list img :=
  flat_map (fun ev => match ev with WaitForUserDialog _ shown => [shown] | _ => [] end) tr.

(** The arguments of each [IJ.setThreshold] call, in order. *)
Definition thresholds_set (tr : list event) : list (img * pynum * pynum) :=
  flat_map (fun ev => match ev with
                      | IJ_setThreshold imp lower upper => [(imp, lower, upper)]
                      | _ => []
                      end) tr.

(** The images handed back by Bio-Formats: one per series begun. *)
Definition opened (tr : list event) : list img :=
  flat_map (fun ev => match ev with BF_openImagePlus _ _ imp => [imp] | _ => [] end) tr.

(** The images binarised by the "Moments" method on a dark background
    (lines 297-302). *)
Definition auto_thresholded (tr : list event) : list img :=
  flat_map (fun ev => match ev with
                      | IJ_run imp command options =>
                          if String.eqb command "Convert to Mask"
                             && String.eqb options "method=Moments  background=Dark black"
                          then [imp] else []
                      | _ => []
                      end) tr.

(** Every image object a call created, and every one closed. *)
Definition allocated (tr : list event) : list img :=
  flat_map (fun ev => match ev with
                      | BF_openImagePlus _ _ imp => [imp]
                      | Duplicator_run _ _ dup => [dup]
                      | IJ_getImage imp => [imp]
                      | ImageCalculator_run _ _ _ result => [result]
                      | _ => []
                      end) tr.

Definition closed (tr : list event) : list img :=
  flat_map (fun ev => match ev with Close imp => [imp] | _ => [] end) tr.

Definition saved (tr : list event) : list string :=
  flat_map (fun ev => match ev with IJ_saveAs _ _ path => [path] | _ => [] end) tr.

Definition is_reader_call (ev : event) : bool :=
  match ev with
  | Reader_setId _ | Reader_setSeries _ _ | Reader_close _ => true
  | _ => false
  end.

Definition is_makedirs (ev : event) : bool :=
  match ev with Os_makedirs _ => true | _ => false end.

Definition is_exporter_run (ev : event) : bool :=
  match ev with Exporter_run _ _ => true | _ => false end.

(** The series a run goes through, as [(file_id, series)], when the file
    loop iterates over [files]. *)
Definition work_items (w : world) (files : list string) : list (Z * Z) :=
  flat_map (fun item : Z * string =>
              map (fun series => (fst item, series))
                (py_range (series_count w (snd item))))
    (enumerate files).

Definition laplace_of (it : Z * Z) : img := mkImg (fst it) (snd it) ImpLaplace.
Definition imp_of (it : Z * Z) : img := mkImg (fst it) (snd it) Imp.

(** ** The threshold state machine, read off lines 296-317 *)

Definition tstate : Type := pynum * option pynum.

Definition view (g : globals) : tstate := (thresh_value g, min_thresh_value g).

(** What one series does to the pair [(thresh_value, min_thresh_value)] and
    what it shows; [None] when line 312 reads the unbound
    [min_thresh_value]. *)
Definition threshold_step (mode : string) (w : world) (st : tstate) (it : Z * Z)
  : list obs * option tstate :=
  let '(tv, mn) := st in
  let lap := laplace_of it in
  let '(shown, tv1, mn1) :=
    if String.eqb mode "Fully automatic" then ([], tv, mn)
    else if py_eq_zero tv then
      ([Prompted lap], PyFloat (snd (user_thresholds w lap)),
       Some (PyFloat (fst (user_thresholds w lap))))
    else ([], tv, mn) in
  match mn1 with
  | None => (Opened (imp_of it) :: shown, None)
  | Some lower =>
      (Opened (imp_of it) :: shown ++ [Thresholded lap lower tv1],
       Some (if String.eqb mode "Fully manual" then PyInt 0 else tv1, mn1))
  end.

Fixpoint threshold_steps (mode : string) (w : world) (st : tstate)
    (items : list (Z * Z)) : list obs * option tstate :=
  match items with
  | [] => ([], Some st)
  | it :: rest =>
      match threshold_step mode w st it with
      | (o1, Some st1) =>
          let '(o2, r) := threshold_steps mode w st1 rest in (o1 ++ o2, r)
      | (o1, None) => (o1, None)
      end
  end.

(** The same projections on observations. *)
Definition obs_prompts (os : list obs) : list img :=
  flat_map (fun o => match o with Prompted shown => [shown] | _ => [] end) os.

Definition obs_thresholds (os : list obs) : list (img * pynum * pynum) :=
  flat_map (fun o => match o with
                     | Thresholded imp lower upper => [(imp, lower, upper)]
                     | _ => []
                     end) os.

Definition obs_opened (os : list obs) : list img :=
  flat_map (fun o => match o with Opened imp => [imp] | _ => [] end) os.

(** ** A small installation to run the script on *)

(** Two matching files, one of them in a sub-directory, and one file that
    does not match; [/in/sample.nd2] holds two series, every other file
    one, so a run goes through three series. *)
Definition sample_tree : node :=
  Dir "in" [File "sample.nd2";
            Dir "sub" [File "other.nd2"; File "notes.txt"]].

Definition sample_world (choice : float * float) : world :=
  mkWorld sample_tree
    (fun _ => false)
    (fun path => if String.eqb path "/in/sample.nd2" then 2 else 1)
    (fun _ _ => 1)
    (fun _ => choice)
    (fun _ => false)
    (fun _ => false).

Definition sample_config (mode : string) (align : bool) : config :=
  mkConfig "/in" "/out" "nd2" 1 align mode.

(** The output name as the specification words it: the base name with the
    extension stripped (what line 243 computes), then the suffix. *)
Definition spec_out_ratio (cfg : config) (file : string) : string :=
  let basename := fst (PosixPath.splitext (PosixPath.basename file)) in
  if do_stackreg cfg
  then PosixPath.join (out_dir cfg) (basename ++ "_ratio_chnlaligned.tif")%string
  else PosixPath.join (out_dir cfg) (basename ++ "_ratio.tif")%string.

(** ** Where the files are *)

(** [file_at top root dirpath f]: walking down from [root], found at the
    path [top], some directory reached at the path [dirpath] lists the
    file [f]; the directory may lie at any depth. *)
Inductive file_at : string -> node -> string -> string -> Prop :=
| file_here top d entries f :
    In (File f) entries ->
    file_at top (Dir d entries) top f
| file_below top d entries sub sub_entries dirpath f :
    In (Dir sub sub_entries) entries ->
    file_at (PosixPath.join top sub) (Dir sub sub_entries) dirpath f ->
    file_at top (Dir d entries) dirpath f.

(** The characters [fnmatch] gives a meaning to. *)
Definition is_meta (c : ascii) : bool :=
  Ascii.eqb c "*"%char || Ascii.eqb c "?"%char || Ascii.eqb c "["%char.

Definition meta_free (s : string) : bool :=
  forallb (fun c => negb (is_meta c)) (list_ascii_of_string s).

Definition slash_free (s : string) : bool :=
  negb (PosixPath.existsb_char (fun c => Ascii.eqb c PosixPath.sep) s).

(** ** Reading computations *)

(** [wp m g Q]: running [m] from the globals [g] yields a trace and an
    outcome that satisfy [Q]. *)
Definition wp {A : Type} (m : M A) (g : globals)
    (Q : list event -> outcome A -> Prop) : Prop :=
  Q (fst (m g)) (snd (m g)).

(** A run agrees with what the threshold state machine expects: the same
    observations, and the same end (a state, or the [NameError]). *)
Definition follows (expected : list obs * option tstate)
    (t : list event) (o : outcome unit) : Prop :=
  observations t = fst expected
  /\ match snd expected with
     | Some st => exists g', o = Ok tt g' /\ view g' = st
     | None => o = Raise (NameError "min_thresh_value")
     end.

(** Every call [m] completes, from any globals, satisfies [P]. *)
Definition emits_only (P : event -> Prop) {A : Type} (m : M A) : Prop :=
  forall g, Forall P (fst (m g)).

(** ** What a computation keeps and how it can fail *)

(** [keeps I E m]: started from globals that satisfy [I], [m] either
    completes with globals that satisfy [I] or raises an exception that
    satisfies [E]. *)
Definition keeps (I : globals -> Prop) (E : exn -> Prop) {A : Type} (m : M A)
  : Prop :=
  forall g, I g ->
    match snd (m g) with
    | Ok _ g' => I g'
    | Raise e => E e
    end.

(** In the manual modes, a non-zero [thresh_value] comes with a bound
    [min_thresh_value]: both are assigned together at lines 307-308. *)
Definition threshold_known (cfg : config) (g : globals) : Prop :=
  String.eqb (thresh_method cfg) "Fully automatic" = false ->
  py_eq_zero (thresh_value g) = true \/ min_thresh_value g <> None.

(** The ways the loops of the script can end early: the unbound name of
    line 312, in Fully automatic mode, or an external call that raised. *)
Definition loop_failure (cfg : config) (w : world) (e : exn) : Prop :=
  (e = NameError "min_thresh_value" /\ thresh_method cfg = "Fully automatic")
  \/ (exists ev, e = Failure ev /\ faulty w ev = true).

(** The calls only the loops of the script make: everything but the log
    lines of the script itself and the calls of the helpers it never uses. *)
Definition is_loop_call (ev : event) : bool :=
  match ev with
  | IJ_log _ | Timed_log _ | Print _ | Exporter_run _ _ | Os_makedirs _ => false
  | _ => true
  end.

(** The bookkeeping calls of the file loop: progress lines and the reader. *)
Definition is_overhead (ev : event) : bool :=
  match ev with
  | IJ_log _ | Timed_log _ | Progress_log _ _ _ _ _ _
  | Reader_setId _ | Reader_setSeries _ _ | Reader_close _ => true
  | _ => false
  end.

(** In a manual mode with the threshold pair consistent. *)
Definition manual_state (g : globals) : Prop :=
  py_eq_zero (thresh_value g) = true \/ min_thresh_value g <> None.

(** The images one series creates and the ones it closes, in call order. *)
Definition series_allocations (it : Z * Z) : list img :=
  let new := mkImg (fst it) (snd it) in
  [new Imp; new ImpC1; new ImpC2; new ImpSegment; new ImpLaplace;
   new ImpQuotient; new ImpResult].

Definition series_closes (it : Z * Z) : list img :=
  let new := mkImg (fst it) (snd it) in
  [new Imp; new ImpResult; new ImpC1; new ImpC2; new ImpLaplace; new ImpSegment].

(** The series at which "Manual once and apply to all" opens the dialog:
    every series up to and including the first one where the operator
    leaves a maximum threshold other than 0. *)
Fixpoint asked_manual_once (w : world) (items : list (Z * Z)) : list (Z * Z) :=
  match items with
  | [] => []
  | it :: rest =>
      if py_eq_zero (PyFloat (snd (user_thresholds w (laplace_of it))))
      then it :: asked_manual_once w rest
      else [it]
  end.

(** What [getFileList] returns, with nothing for a pattern that raises. *)
Definition listed (root : node) (directory suffix : string) : list string :=
  match getFileList root directory suffix with
  | Some files => files
  | None => []
  end.

(** The suffix lines 260-264 add to the file name. *)
Definition ratio_suffix (cfg : config) : string :=
  if do_stackreg cfg then "_ratio_chnlaligned.tif" else "_ratio.tif".

(** What holds of each call of a run over the files [files]: results are
    saved as TIFF from the result image under the output name of a file of
    the list; the registration plugin runs only when alignment is on; a progress line shows a step between 1 and the
    total; channels 1 and 2 feed the ratio and [seg_chnl] the segmentation;
    the image calculator divides channel 1 by channel 2 and multiplies the
    quotient by the edge image, all of one series. *)
Definition call_sound (cfg : config) (files : list string) (ev : event) : Prop :=
  match ev with
  | IJ_saveAs imp format path =>
      format = "Tiff" /\ img_role imp = ImpResult
      /\ exists file, In file files /\ path = out_ratio cfg file ""
  | IJ_run _ command _ => command = "StackReg" -> do_stackreg cfg = true
  | Progress_log _ _ x rest progress total =>
      1 <= progress <= total /\ x = 30 * progress / total /\ rest = 30 - x
  | Duplicator_run _ channel dup =>
      match img_role dup with
      | ImpC1 => channel = 1
      | ImpC2 => channel = 2
      | ImpSegment => channel = seg_chnl cfg
      | _ => False
      end
  | ImageCalculator_run op a b result =>
      let new := mkImg (img_file result) (img_series result) in
      (op = "Divide create 32-bit" /\ a = new ImpC1 /\ b = new ImpC2
       /\ img_role result = ImpQuotient)
      \/ (op = "Multiply create 32-bit" /\ a = new ImpQuotient
          /\ b = new ImpLaplace /\ img_role result = ImpResult)
  | _ => True
  end.

(** What Bio-Formats was asked to open: file, absolute series index and
    the image handed back, in call order. *)
Definition opens (tr : list event) : list (string * Z * img) :=
  flat_map (fun ev => match ev with
                      | BF_openImagePlus path series_number imp =>
                          [(path, series_number, imp)]
                      | _ => []
                      end) tr.

(** The series of a run over [files] with what the loader is asked for:
    for series [s] of a file, the absolute index is the sum of the
    resolution counts of the series before [s]. *)
Definition expected_opens (w : world) (files : list string)
  : list (string * Z * img) :=
  flat_map (fun item : Z * string =>
              map (fun s => (snd item,
                             offset (resolution_count w (snd item)) s,
                             mkImg (fst item) s Imp))
                (py_range (series_count w (snd item))))
    (enumerate files).

(** * Properties *)

(** ** Ranges and enumerations *)

Lemma py_range_succ (k : nat) :
  py_range (Z.of_nat (S k)) = py_range (Z.of_nat k) ++ [Z.of_nat k].
Proof.
  unfold py_range. rewrite !Nat2Z.id, seq_S, map_app. reflexivity.
Qed.

Lemma py_range_length (n : Z) : List.length (py_range n) = Z.to_nat n.
Proof. unfold py_range. now rewrite length_map, length_seq. Qed.

Lemma py_range_In (n i : Z) : In i (py_range n) <-> 0 <= i < n.
Proof.
  unfold py_range. rewrite in_map_iff. split.
  - intros (k & <- & Hk). apply in_seq in Hk. lia.
  - intros Hi. exists (Z.to_nat i). split; [lia|]. apply in_seq. lia.
Qed.

Lemma py_range_nth (n i : Z) :
  0 <= i < n -> nth_error (py_range n) (Z.to_nat i) = Some i.
Proof.
  intros Hi. unfold py_range.
  rewrite nth_error_map, nth_error_seq.
  destruct (Nat.ltb_spec (Z.to_nat i) (Z.to_nat n)); [|lia].
  simpl. f_equal. lia.
Qed.

(** ** The series index table *)

Lemma offset_0 (res : Z -> Z) : offset res 0 = 0.
Proof. reflexivity. Qed.

Lemma offset_succ (res : Z -> Z) (i : Z) :
  0 <= i -> offset res (i + 1) = offset res i + res i.
Proof.
  intros Hi. unfold offset.
  replace (i + 1) with (Z.of_nat (S (Z.to_nat i))) by lia.
  rewrite py_range_succ, map_app, fold_left_app. simpl.
  now rewrite !Z2Nat.id by lia.
Qed.

Lemma series_index_fold (res : Z -> Z) (k : nat) :
  fold_left (series_index_step res) (py_range (Z.of_nat k)) (0, [])
  = (offset res (Z.of_nat k - 1), map (offset res) (py_range (Z.of_nat k))).
Proof.
  induction k as [|k IH].
  - reflexivity.
  - rewrite py_range_succ, fold_left_app, IH, map_app.
    replace (Z.of_nat (S k) - 1) with (Z.of_nat k) by lia.
    assert (Hk : 0 <= Z.of_nat k) by lia.
    revert Hk. generalize (Z.of_nat k) as z. intros z Hz.
    cbn [fold_left map]. unfold series_index_step.
    destruct (Z.eqb_spec z 0) as [E|E].
    + subst z. reflexivity.
    + assert (Hoff : offset res z = offset res (z - 1) + res (z - 1)).
      { rewrite <- offset_succ by lia. f_equal. lia. }
      now rewrite Hoff.
Qed.

Lemma series_info_table (n : Z) (res : Z -> Z) :
  series_info n res = (n, map (offset res) (py_range n)).
Proof.
  unfold series_info. f_equal.
  destruct (Z.le_gt_cases 0 n) as [Hn|Hn].
  - rewrite <- (Z2Nat.id n Hn), series_index_fold. reflexivity.
  - unfold py_range. replace (Z.to_nat n) with O by lia. reflexivity.
Qed.

Lemma offset_mono (res : Z -> Z) (n i j : Z) :
  (forall k, 0 <= k < n -> 0 <= res k) ->
  0 <= i -> i <= j -> j <= n -> offset res i <= offset res j.
Proof.
  intros Hres Hi Hij Hj.
  replace j with (i + Z.of_nat (Z.to_nat (j - i))) in * by lia.
  induction (Z.to_nat (j - i)) as [|d IH].
  - rewrite Z.add_0_r. lia.
  - replace (i + Z.of_nat (S d)) with (i + Z.of_nat d + 1) in * by lia.
    rewrite offset_succ by lia.
    specialize (Hres (i + Z.of_nat d)).
    assert (offset res i <= offset res (i + Z.of_nat d)) by (apply IH; lia).
    lia.
Qed.

(** ** Running computations *)

Lemma call_healthy (w : world) (ev : event) (g : globals) :
  healthy w -> call w ev g = ([ev], Ok tt g).
Proof. intros H. unfold call. now rewrite H. Qed.

Lemma bind_Ok {A B : Type} (m : M A) (k : A -> M B) {g t1 a g1} :
  m g = (t1, Ok a g1) ->
  bind m k g = (t1 ++ fst (k a g1), snd (k a g1)).
Proof. intros E. unfold bind. rewrite E. now destruct (k a g1). Qed.

Lemma bind_Raise {A B : Type} (m : M A) (k : A -> M B) {g t1 e} :
  m g = (t1, Raise e) -> bind m k g = (t1, Raise e).
Proof. intros E. unfold bind. now rewrite E. Qed.

Lemma bind_call_healthy {B : Type} (w : world) (ev : event) (k : unit -> M B) g :
  healthy w ->
  bind (call w ev) k g = (ev :: fst (k tt g), snd (k tt g)).
Proof. intros H. now rewrite (bind_Ok _ _ (call_healthy w ev g H)). Qed.

(** The reader loop of [get_series_info_from_ome_metadata] completes in a
    healthy world and computes the table of [series_info]; it only talks
    to the reader. *)
Lemma reader_loop_healthy (w : world) (path : string) (l : list Z) st g :
  healthy w ->
  exists tr,
    for_fold l
      (fun st i =>
         when (negb (i =? 0)) (call w (Reader_setSeries path (i - 1))) ;;
         ret (series_index_step (resolution_count w path) st i)) st g
    = (tr, Ok (fold_left (series_index_step (resolution_count w path)) l st) g)
    /\ Forall (fun ev => is_reader_call ev = true) tr.
Proof.
  intros H. revert st. induction l as [|i l IH]; intros st.
  - exists []. now split.
  - simpl.
    destruct (IH (series_index_step (resolution_count w path) st i)) as (tr & E & F).
    unfold bind at 1.
    assert (Hstep : exists t0,
      bind (when (negb (i =? 0)) (call w (Reader_setSeries path (i - 1))))
        (fun _ => ret (series_index_step (resolution_count w path) st i)) g
      = (t0, Ok (series_index_step (resolution_count w path) st i) g)
      /\ Forall (fun ev => is_reader_call ev = true) t0).
    { destruct (i =? 0); simpl.
      - exists []. now split.
      - rewrite bind_call_healthy by assumption. simpl. eexists. split; [reflexivity|].
        now repeat constructor. }
    destruct Hstep as (t0 & -> & F0). rewrite E. eexists. split; [reflexivity|].
    now apply Forall_app.
Qed.

Lemma get_series_info_healthy (w : world) (path : string) g :
  healthy w ->
  exists tr,
    get_series_info_from_ome_metadata w path g
    = (tr, Ok (series_info (series_count w path) (resolution_count w path)) g)
    /\ Forall (fun ev => is_reader_call ev = true) tr.
Proof.
  intros H. unfold get_series_info_from_ome_metadata.
  rewrite bind_call_healthy by assumption.
  destruct (reader_loop_healthy w path (py_range (series_count w path)) (0, []) g H)
    as (tr & E & F).
  rewrite (bind_Ok _ _ E).
  rewrite bind_call_healthy by assumption. simpl.
  eexists. split; [reflexivity|].
  constructor; [reflexivity|]. apply Forall_app. split; [exact F|].
  now repeat constructor.
Qed.

Lemma offset_table_sorted (res : Z -> Z) (n : nat) :
  (forall k, 0 <= k < Z.of_nat n -> 0 <= res k) ->
  forall len start, (start + len <= n)%nat ->
    StronglySorted Z.le (map (offset res) (map Z.of_nat (seq start len))).
Proof.
  intros Hres. induction len as [|len IH]; intros start Hle; simpl.
  - constructor.
  - constructor.
    + apply IH. lia.
    + apply Forall_forall. intros x Hx.
      apply in_map_iff in Hx. destruct Hx as (z & <- & Hz).
      apply in_map_iff in Hz. destruct Hz as (j & <- & Hj).
      apply in_seq in Hj.
      apply (offset_mono res (Z.of_nat n)); auto; lia.
Qed.

(** C5.  In a world where no call raises, for a file whose metadata reports
    [N >= 0] series, [get_series_info_from_ome_metadata] returns [N] and a
    table of exactly [N] absolute indices: entry 0 is 0, entry [i] is the
    sum of the resolution counts of the series before [i] (so each entry
    is the previous one plus the resolution count of the previous series),
    and the table is non-decreasing when no resolution count is negative. *)
Theorem series_inspector_indices (w : world) (path : string) (g : globals) (N : Z) :
  healthy w ->
  series_count w path = N ->
  0 <= N ->
  exists tr series_index,
    get_series_info_from_ome_metadata w path g = (tr, Ok (N, series_index) g)
    /\ Z.of_nat (List.length series_index) = N
    /\ (0 < N -> nth_error series_index 0 = Some 0)
    /\ (forall i, 0 <= i < N ->
          nth_error series_index (Z.to_nat i)
          = Some (offset (resolution_count w path) i))
    /\ (forall i prev, 0 < i < N ->
          nth_error series_index (Z.to_nat (i - 1)) = Some prev ->
          nth_error series_index (Z.to_nat i)
          = Some (prev + resolution_count w path (i - 1)))
    /\ ((forall k, 0 <= k < N -> 0 <= resolution_count w path k) ->
        StronglySorted Z.le series_index).
Proof.
  intros H HN Hpos.
  destruct (get_series_info_healthy w path g H) as (tr & E & _).
  rewrite HN, series_info_table in E.
  exists tr, (map (offset (resolution_count w path)) (py_range N)).
  assert (Hnth : forall i, 0 <= i < N ->
            nth_error (map (offset (resolution_count w path)) (py_range N)) (Z.to_nat i)
            = Some (offset (resolution_count w path) i)).
  { intros i Hi. now rewrite nth_error_map, py_range_nth. }
  split; [exact E|]. split; [|split; [|split; [|split]]].
  - rewrite length_map, py_range_length. lia.
  - intros HN0. apply (Hnth 0). lia.
  - exact Hnth.
  - intros i prev Hi Hprev.
    rewrite Hnth in Hprev by lia. injection Hprev as <-.
    rewrite Hnth by lia. f_equal.
    rewrite <- offset_succ by lia. f_equal. lia.
  - intros Hres. unfold py_range.
    apply (offset_table_sorted (resolution_count w path) (Z.to_nat N)); [|lia].
    intros k Hk. apply Hres. lia.
Qed.

Lemma series_inspector_indices_witness :
  exists tr series_index,
    get_series_info_from_ome_metadata (sample_world (1.5%float, 7%float))
      "/in/sample.nd2" unbound
    = (tr, Ok (2, series_index) unbound)
    /\ Z.of_nat (List.length series_index) = 2
    /\ nth_error series_index 0 = Some 0
    /\ nth_error series_index 1 = Some 1
    /\ StronglySorted Z.le series_index.
Proof.
  destruct (series_inspector_indices (sample_world (1.5%float, 7%float))
              "/in/sample.nd2" unbound 2)
    as (tr & idx & E & Hlen & H0 & Hoff & _ & Hsorted).
  - intros ev. reflexivity.
  - reflexivity.
  - lia.
  - exists tr, idx. split; [exact E|]. split; [exact Hlen|].
    split; [apply H0; lia|]. split.
    + apply (Hoff 1). lia.
    + apply Hsorted. intros k _. simpl. lia.
Defined.

(** ** A weakest-precondition reading of computations *)

Lemma wp_ret {A : Type} (a : A) g (Q : list event -> outcome A -> Prop) :
  Q [] (Ok a g) -> wp (ret a) g Q.
Proof. exact (fun q => q). Qed.

Lemma wp_raise {A : Type} (e : exn) g (Q : list event -> outcome A -> Prop) :
  Q [] (Raise e) -> wp (raise e) g Q.
Proof. exact (fun q => q). Qed.

Lemma wp_bind {A B : Type} (m : M A) (k : A -> M B) g
    (Q : list event -> outcome B -> Prop) :
  wp m g (fun t o =>
            match o with
            | Ok a g1 => wp (k a) g1 (fun t2 o2 => Q (t ++ t2) o2)
            | Raise e => Q t (Raise e)
            end) ->
  wp (bind m k) g Q.
Proof.
  unfold wp, bind. destruct (m g) as [t [a g1|e]]; simpl; [|easy].
  now destruct (k a g1).
Qed.

Lemma wp_call (w : world) (ev : event) g (Q : list event -> outcome unit -> Prop) :
  (faulty w ev = true -> Q [] (Raise (Failure ev))) ->
  (faulty w ev = false -> Q [ev] (Ok tt g)) ->
  wp (call w ev) g Q.
Proof. unfold wp, call. destruct (faulty w ev); auto. Qed.

Lemma wp_call_healthy (w : world) (ev : event) g
    (Q : list event -> outcome unit -> Prop) :
  healthy w -> Q [ev] (Ok tt g) -> wp (call w ev) g Q.
Proof. intros H q. apply wp_call; [now rewrite H | auto]. Qed.

Lemma wp_conseq {A : Type} (m : M A) g (Q Q' : list event -> outcome A -> Prop) :
  wp m g Q -> (forall t o, Q t o -> Q' t o) -> wp m g Q'.
Proof. unfold wp. auto. Qed.

Lemma wp_get_thresh_value g (Q : list event -> outcome pynum -> Prop) :
  Q [] (Ok (thresh_value g) g) -> wp get_thresh_value g Q.
Proof. exact (fun q => q). Qed.

Lemma wp_get_pad_number g (Q : list event -> outcome Z -> Prop) :
  Q [] (Ok (pad_number g) g) -> wp get_pad_number g Q.
Proof. exact (fun q => q). Qed.

Lemma wp_get_min_thresh_value g (Q : list event -> outcome pynum -> Prop) :
  match min_thresh_value g with
  | Some v => Q [] (Ok v g)
  | None => Q [] (Raise (NameError "min_thresh_value"))
  end ->
  wp get_min_thresh_value g Q.
Proof. unfold wp, get_min_thresh_value. now destruct (min_thresh_value g). Qed.

Lemma wp_set_thresh_value v g (Q : list event -> outcome unit -> Prop) :
  Q [] (Ok tt (mkGlobals v (min_thresh_value g) (pad_number g))) ->
  wp (set_thresh_value v) g Q.
Proof. exact (fun q => q). Qed.

Lemma wp_set_min_thresh_value v g (Q : list event -> outcome unit -> Prop) :
  Q [] (Ok tt (mkGlobals (thresh_value g) (Some v) (pad_number g))) ->
  wp (set_min_thresh_value v) g Q.
Proof. exact (fun q => q). Qed.

Lemma wp_set_pad_number n g (Q : list event -> outcome unit -> Prop) :
  Q [] (Ok tt (mkGlobals (thresh_value g) (min_thresh_value g) n)) ->
  wp (set_pad_number n) g Q.
Proof. exact (fun q => q). Qed.

(** The steps of symbolic execution that do not depend on the world. *)
Ltac wp_pure :=
  lazymatch goal with
  | |- wp (bind _ _) _ _ => apply wp_bind
  | |- wp (ret _) _ _ => apply wp_ret
  | |- wp (raise _) _ _ => apply wp_raise
  | |- wp (when ?b _) _ _ => destruct b eqn:?; unfold when
  | |- wp (if ?b then _ else _) _ _ => destruct b eqn:?
  | |- wp get_thresh_value _ _ => apply wp_get_thresh_value
  | |- wp get_pad_number _ _ => apply wp_get_pad_number
  | |- wp (set_thresh_value _) _ _ => apply wp_set_thresh_value
  | |- wp (set_min_thresh_value _) _ _ => apply wp_set_min_thresh_value
  | |- wp (set_pad_number _) _ _ => apply wp_set_pad_number
  | |- wp get_min_thresh_value _ _ =>
      apply wp_get_min_thresh_value; cbn [min_thresh_value];
      try lazymatch goal with
          | |- match ?x with _ => _ end => is_var x; destruct x
          end
  end.

(** One step in a world where no call raises. *)
Ltac wp_healthy H :=
  first [ wp_pure
        | lazymatch goal with
          | |- wp (call _ _) _ _ => apply (wp_call_healthy _ _ _ _ H)
          end ];
  cbv beta iota; cbn [fst snd thresh_value min_thresh_value pad_number].

(** One step in an arbitrary world: every call may raise. *)
Ltac wp_any :=
  first [ wp_pure
        | lazymatch goal with
          | |- wp (call _ _) _ _ => apply wp_call; intros _
          end ];
  cbv beta iota; cbn [fst snd thresh_value min_thresh_value pad_number].

(** ** Projections of a trace *)

Lemma observations_app t1 t2 :
  observations (t1 ++ t2) = observations t1 ++ observations t2.
Proof. apply flat_map_app. Qed.

(** ** One series follows the threshold state machine *)

Lemma series_body_follows cfg w fid file bn n idx s sn g :
  healthy w ->
  n <> 0 ->
  nth_error idx (Z.to_nat s) = Some sn ->
  wp (series_body cfg w fid file bn n idx s) g
    (follows (threshold_step (thresh_method cfg) w (view g) (fid, s))).
Proof.
  intros H Hn Hs. destruct g as [tv mn pn].
  unfold series_body, progress_bar, py_index, open_single_series_with_BF,
    threshold_block, threshold_step, view, laplace_of, imp_of.
  destruct (Z.eqb_spec n 0); [contradiction|].
  rewrite Hs. cbn [fst snd thresh_value min_thresh_value].
  repeat wp_healthy H;
    unfold follows; simpl; (split; [reflexivity|]);
    try reflexivity; (eexists; split; reflexivity).
Qed.

(** ** Loops follow the threshold state machine *)

Lemma threshold_steps_app mode w st l1 l2 :
  threshold_steps mode w st (l1 ++ l2)
  = match threshold_steps mode w st l1 with
    | (o1, Some st1) =>
        let '(o2, r) := threshold_steps mode w st1 l2 in (o1 ++ o2, r)
    | (o1, None) => (o1, None)
    end.
Proof.
  revert st. induction l1 as [|it l1 IH]; intros st; simpl.
  - now destruct (threshold_steps mode w st l2).
  - destruct (threshold_step mode w st it) as [o1 [st1|]]; [|reflexivity].
    rewrite IH.
    destruct (threshold_steps mode w st1 l1) as [o2 [st2|]]; [|reflexivity].
    destruct (threshold_steps mode w st2 l2) as [o3 r].
    now rewrite app_assoc.
Qed.

Lemma threshold_steps_one mode w st it :
  threshold_steps mode w st [it] = threshold_step mode w st it.
Proof.
  simpl. destruct (threshold_step mode w st it) as [o1 [st1|]]; [|reflexivity].
  now rewrite app_nil_r.
Qed.

Lemma wp_of_eq {A : Type} (m : M A) g t o (Q : list event -> outcome A -> Prop) :
  m g = (t, o) -> Q t o -> wp m g Q.
Proof. unfold wp. now intros ->. Qed.

Lemma for_follows {A : Type} (l : list A) (body : A -> M unit)
    (items : A -> list (Z * Z)) mode w :
  (forall a g, In a l ->
     wp (body a) g (follows (threshold_steps mode w (view g) (items a)))) ->
  forall g,
    wp (for_ l body) g
      (follows (threshold_steps mode w (view g) (flat_map items l))).
Proof.
  induction l as [|a l IH]; intros Hbody g.
  - simpl. apply wp_ret. split; [reflexivity|]. simpl. now exists g.
  - simpl. apply wp_bind.
    apply (wp_conseq _ _ _ _ (Hbody a g (or_introl eq_refl))).
    intros t o [Hobs Hout]. rewrite threshold_steps_app.
    destruct (threshold_steps mode w (view g) (items a)) as [o1 [st1|]];
      simpl in Hobs, Hout.
    + destruct Hout as (g1 & -> & Hview).
      assert (IH' := IH (fun a' g' Hin => Hbody a' g' (or_intror Hin)) g1).
      apply (wp_conseq _ _ _ _ IH').
      intros t2 o2 [Hobs2 Hout2]. rewrite Hview in Hobs2, Hout2.
      destruct (threshold_steps mode w st1 (flat_map items l)) as [o3 r].
      split; [|exact Hout2].
      simpl in *. now rewrite observations_app, Hobs, Hobs2.
    + subst o. split; [exact Hobs | reflexivity].
Qed.

Lemma observations_none tr :
  Forall (fun ev => observe ev = []) tr -> observations tr = [].
Proof.
  induction 1 as [|ev tr Hev _ IH]; [reflexivity|].
  unfold observations in *. simpl. now rewrite Hev, IH.
Qed.

Lemma reader_calls_unobserved tr :
  Forall (fun ev => is_reader_call ev = true) tr -> observations tr = [].
Proof.
  intros F. apply observations_none.
  eapply Forall_impl; [|exact F].
  intros ev. now destruct ev.
Qed.

Lemma file_body_follows cfg w n_files fid file g :
  healthy w ->
  n_files <> 0 ->
  wp (file_body cfg w n_files (fid, file)) g
    (follows (threshold_steps (thresh_method cfg) w (view g)
                (map (fun series => (fid, series))
                   (py_range (series_count w file))))).
Proof.
  intros H Hn. unfold file_body, progress_bar.
  destruct (Z.eqb_spec n_files 0); [contradiction|].
  apply wp_bind, (wp_call_healthy _ _ _ _ H). cbv beta iota.
  apply wp_bind.
  destruct (get_series_info_healthy w file g H) as (tr & E & F).
  apply (wp_of_eq _ _ _ _ _ E).
  rewrite series_info_table.
  apply wp_bind, wp_get_pad_number.
  apply wp_bind.
  set (body := series_body cfg w fid file _ _ _).
  assert (Hloop : forall g1, view g1 = view g ->
            wp (for_ (py_range (series_count w file)) body) g1
              (fun t2 o2 =>
                 follows
                   (threshold_steps (thresh_method cfg) w (view g)
                      (map (fun series => (fid, series))
                         (py_range (series_count w file))))
                   (Progress_log 1 ("Processing: " ++ py_str_int fid)
                      (30 * (fid + 1) / n_files) (30 - 30 * (fid + 1) / n_files)
                      (fid + 1) n_files :: tr ++ t2) o2)).
  { intros g1 Hg1.
    assert (L := for_follows (py_range (series_count w file)) body
                   (fun series => [(fid, series)]) (thresh_method cfg) w).
    rewrite flat_map_concat_map, <- (map_map (fun s => (fid, s)) (fun it => [it])),
      <- flat_map_concat_map in L.
    replace (flat_map (fun it : Z * Z => [it])
               (map (fun s => (fid, s)) (py_range (series_count w file))))
      with (map (fun s : Z => (fid, s)) (py_range (series_count w file))) in L.
    2:{ generalize (map (fun s : Z => (fid, s)) (py_range (series_count w file))).
        intros l. induction l; simpl; congruence. }
    apply (wp_conseq _ _ _ _ (L ltac:(
      intros s g2 Hin; rewrite threshold_steps_one; apply py_range_In in Hin;
      apply (series_body_follows cfg w fid file _ (series_count w file) _ s
               (offset (resolution_count w file) s) g2 H);
      [lia | now rewrite nth_error_map, py_range_nth]) g1)).
    intros t2 o2 [Hobs2 Hout2]. rewrite Hg1 in Hobs2, Hout2.
    split; [|exact Hout2].
    change (observations (?e :: ?l)) with (observe e ++ observations l).
    now rewrite observations_app, Hobs2, (reader_calls_unobserved tr F). }
  destruct (pad_number g =? 0); unfold when.
  - apply wp_set_pad_number. cbv beta iota. cbn [app].
    apply Hloop. reflexivity.
  - apply wp_ret. cbv beta iota. cbn [app].
    apply Hloop. reflexivity.
Qed.

(** ** The whole script follows the threshold state machine *)

Lemma run_follows cfg w files :
  healthy w ->
  getFileList (fs w) (src_dir cfg) (filename_filter cfg) = Some files ->
  follows
    (threshold_steps (thresh_method cfg) w (PyInt 0, None)
       (work_items w (sorted files)))
    (fst (run cfg w)) (snd (run cfg w)).
Proof.
  intros H Hfiles. unfold run.
  change (wp (main cfg w) unbound
            (follows (threshold_steps (thresh_method cfg) w (PyInt 0, None)
                        (work_items w (sorted files))))).
  unfold main, timed_log. rewrite Hfiles.
  do 11 wp_healthy H. cbn [unbound min_thresh_value app].
  destruct files as [|f fs'].
  - do 2 wp_healthy H. split; [reflexivity|]. simpl. now eexists.
  - set (files := f :: fs').
    assert (Hloop := for_follows (enumerate (sorted files))
             (file_body cfg w (Z.of_nat (List.length files)))
             (fun item : Z * string =>
                map (fun series => (fst item, series))
                  (py_range (series_count w (snd item))))
             (thresh_method cfg) w).
    apply (wp_conseq _ _ _ _ (Hloop ltac:(
      intros [fid file] g _; apply file_body_follows;
      [exact H | unfold files; simpl List.length; lia])
      (mkGlobals (PyInt 0) None 0))).
    intros t o [Hobs Hout]. fold (work_items w (sorted files)) in Hobs, Hout.
    change (view (mkGlobals (PyInt 0) None 0)) with ((PyInt 0, None) : tstate)
      in Hobs, Hout.
    destruct (threshold_steps (thresh_method cfg) w (PyInt 0, None)
                (work_items w (sorted files))) as [os [st|]]; simpl in Hobs, Hout.
    + destruct Hout as (g1 & -> & Hview).
      wp_healthy H. split.
      * change (observations (?a :: ?b :: ?l)) with (observations l).
        rewrite observations_app, Hobs. simpl. now rewrite app_nil_r.
      * simpl. now exists g1.
    + subst o. split; [|reflexivity].
      now change (observations (?a :: ?b :: ?l)) with (observations l).
Qed.

(** ** From observations back to the calls of the trace *)

Lemma prompts_observations tr : prompts tr = obs_prompts (observations tr).
Proof.
  unfold prompts, obs_prompts, observations.
  induction tr as [|ev tr IH]; [reflexivity|].
  simpl. rewrite flat_map_app, <- IH. now destruct ev.
Qed.

Lemma thresholds_observations tr :
  thresholds_set tr = obs_thresholds (observations tr).
Proof.
  unfold thresholds_set, obs_thresholds, observations.
  induction tr as [|ev tr IH]; [reflexivity|].
  simpl. rewrite flat_map_app, <- IH. now destruct ev.
Qed.

Lemma opened_observations tr : opened tr = obs_opened (observations tr).
Proof.
  unfold opened, obs_opened, observations.
  induction tr as [|ev tr IH]; [reflexivity|].
  simpl. rewrite flat_map_app, <- IH. now destruct ev.
Qed.

(** ** The state machine in each mode *)

(** Manual once, threshold already captured: no prompt, the same pair. *)
Lemma manual_once_set w upper lower items :
  py_eq_zero upper = false ->
  threshold_steps "Manual once and apply to all" w (upper, Some lower) items
  = (flat_map (fun it => [Opened (imp_of it);
                          Thresholded (laplace_of it) lower upper]) items,
     Some (upper, Some lower)).
Proof.
  intros Hz. induction items as [|it items IH]; [reflexivity|].
  cbn [threshold_steps threshold_step]. rewrite Hz.
  change (String.eqb "Manual once and apply to all" "Fully automatic") with false.
  change (String.eqb "Manual once and apply to all" "Fully manual") with false.
  cbv iota beta. now rewrite IH.
Qed.

(** Manual once, no threshold yet: the series prompts and keeps the pair. *)
Lemma manual_once_unset_step w tv mn it :
  py_eq_zero tv = true ->
  threshold_step "Manual once and apply to all" w (tv, mn) it
  = ([Opened (imp_of it); Prompted (laplace_of it);
      Thresholded (laplace_of it)
        (PyFloat (fst (user_thresholds w (laplace_of it))))
        (PyFloat (snd (user_thresholds w (laplace_of it))))],
     Some (PyFloat (snd (user_thresholds w (laplace_of it))),
           Some (PyFloat (fst (user_thresholds w (laplace_of it)))))).
Proof.
  intros Hz. unfold threshold_step. rewrite Hz.
  change (String.eqb "Manual once and apply to all" "Fully automatic") with false.
  change (String.eqb "Manual once and apply to all" "Fully manual") with false.
  reflexivity.
Qed.

(** Fully manual: every series prompts and leaves [thresh_value] at 0. *)
Lemma fully_manual_steps w mn items :
  exists mn',
    threshold_steps "Fully manual" w (PyInt 0, mn) items
    = (flat_map (fun it =>
                   [Opened (imp_of it); Prompted (laplace_of it);
                    Thresholded (laplace_of it)
                      (PyFloat (fst (user_thresholds w (laplace_of it))))
                      (PyFloat (snd (user_thresholds w (laplace_of it))))]) items,
       Some (PyInt 0, mn')).
Proof.
  revert mn. induction items as [|it items IH]; intros mn.
  - now exists mn.
  - cbn [threshold_steps threshold_step].
    change (String.eqb "Fully manual" "Fully automatic") with false.
    change (String.eqb "Fully manual" "Fully manual") with true.
    cbn [py_eq_zero Z.eqb]. cbv iota beta.
    destruct (IH (Some (PyFloat (fst (user_thresholds w (laplace_of it))))))
      as [mn' ->].
    now exists mn'.
Qed.

Lemma run_pair cfg w : run cfg w = (fst (run cfg w), snd (run cfg w)).
Proof. now destruct (run cfg w). Qed.

(** Manual once and apply to all, no call raising, at least one series in
    the run, and the maximum threshold the operator leaves at the first
    dialog is not 0: the script completes, the dialog opens exactly once,
    on the edge image of the first series, and every series of every file
    gets that same (min, max) pair in [IJ.setThreshold]. *)
Theorem manual_once_prompts_once cfg w files first rest lo hi :
  healthy w ->
  thresh_method cfg = "Manual once and apply to all" ->
  getFileList (fs w) (src_dir cfg) (filename_filter cfg) = Some files ->
  work_items w (sorted files) = first :: rest ->
  user_thresholds w (laplace_of first) = (lo, hi) ->
  py_eq_zero (PyFloat hi) = false ->
  exists tr g',
    run cfg w = (tr, Ok tt g')
    /\ opened tr = map imp_of (first :: rest)
    /\ prompts tr = [laplace_of first]
    /\ thresholds_set tr
       = map (fun it => (laplace_of it, PyFloat lo, PyFloat hi)) (first :: rest).
Proof.
  intros H Hmode Hfiles Hitems Huser Hz.
  destruct (run_follows cfg w files H Hfiles) as [Hobs Hout].
  rewrite Hmode, Hitems in Hobs, Hout.
  cbn [threshold_steps threshold_step] in Hobs, Hout.
  change (String.eqb "Manual once and apply to all" "Fully automatic")
    with false in Hobs, Hout.
  change (String.eqb "Manual once and apply to all" "Fully manual")
    with false in Hobs, Hout.
  cbn [py_eq_zero Z.eqb] in Hobs, Hout. rewrite Huser in Hobs, Hout.
  cbn [fst snd] in Hobs, Hout.
  rewrite (manual_once_set w (PyFloat hi) (PyFloat lo) rest Hz) in Hobs, Hout.
  cbn [fst snd] in Hobs, Hout.
  destruct Hout as (g' & Hrun & _).
  exists (fst (run cfg w)), g'. split; [|split; [|split]].
  - now rewrite <- Hrun, <- run_pair.
  - rewrite opened_observations, Hobs. cbn. f_equal.
    clear. induction rest; simpl; congruence.
  - rewrite prompts_observations, Hobs. cbn. f_equal.
    clear. induction rest; simpl; congruence.
  - rewrite thresholds_observations, Hobs. cbn. f_equal.
    clear. induction rest; simpl; congruence.
Qed.

Lemma manual_once_prompts_once_witness :
  exists tr g',
    run (sample_config "Manual once and apply to all" false)
        (sample_world (1.5%float, 7%float)) = (tr, Ok tt g')
    /\ opened tr = map imp_of [(0, 0); (0, 1); (1, 0)]
    /\ prompts tr = [laplace_of (0, 0)]
    /\ thresholds_set tr
       = map (fun it => (laplace_of it, PyFloat 1.5, PyFloat 7))
           [(0, 0); (0, 1); (1, 0)].
Proof.
  apply (manual_once_prompts_once
           (sample_config "Manual once and apply to all" false)
           (sample_world (1.5%float, 7%float))
           ["/in/sample.nd2"; "/in/sub/other.nd2"]
           (0, 0) [(0, 1); (1, 0)] 1.5%float 7%float).
  - intros ev. reflexivity.
  - reflexivity.
  - vm_compute. reflexivity.
  - vm_compute. reflexivity.
  - reflexivity.
  - vm_compute. reflexivity.
Defined.

(** C1.  The script at a run of three series in Manual once and apply to
    all mode, no call raising, where the operator leaves the maximum
    threshold at 0: line 234 uses 0 for "no threshold yet", so the test of
    line 303 still holds after the capture of line 307 and the dialog
    opens on each of the three series, not once on the first. *)
Lemma manual_once_zero_max_prompts_again :
  healthy (sample_world ((-5)%float, 0%float))
  /\ thresh_method (sample_config "Manual once and apply to all" false)
     = "Manual once and apply to all"
  /\ prompts (fst (run (sample_config "Manual once and apply to all" false)
                       (sample_world ((-5)%float, 0%float))))
     = [laplace_of (0, 0); laplace_of (0, 1); laplace_of (1, 0)]
  /\ List.length
       (prompts (fst (run (sample_config "Manual once and apply to all" false)
                          (sample_world ((-5)%float, 0%float))))) <> 1%nat.
Proof.
  split; [intros ev; reflexivity|]. split; [reflexivity|].
  assert (E : prompts (fst (run (sample_config "Manual once and apply to all" false)
                                (sample_world ((-5)%float, 0%float))))
              = [laplace_of (0, 0); laplace_of (0, 1); laplace_of (1, 0)])
    by (vm_compute; reflexivity).
  split; [exact E|]. rewrite E. simpl. discriminate.
Qed.

(** C2.  Fully manual, no call raising: the script completes and the
    dialog opens exactly once per series, on that series' edge image, so a
    run of N series shows it N times; each series thresholds with the pair
    it was just given, and whenever the threshold block of a series
    completes it leaves [thresh_value] at 0, which is what makes the next
    series ask again. *)
Theorem fully_manual_prompts_every_series cfg w files :
  healthy w ->
  thresh_method cfg = "Fully manual" ->
  getFileList (fs w) (src_dir cfg) (filename_filter cfg) = Some files ->
  exists tr g',
    run cfg w = (tr, Ok tt g')
    /\ opened tr = map imp_of (work_items w (sorted files))
    /\ prompts tr = map laplace_of (work_items w (sorted files))
    /\ List.length (prompts tr) = List.length (work_items w (sorted files))
    /\ thresholds_set tr
       = map (fun it => (laplace_of it,
                         PyFloat (fst (user_thresholds w (laplace_of it))),
                         PyFloat (snd (user_thresholds w (laplace_of it)))))
           (work_items w (sorted files))
    /\ thresh_value g' = PyInt 0
    /\ (forall imp_laplace g t g1,
          threshold_block cfg w imp_laplace g = (t, Ok tt g1) ->
          thresh_value g1 = PyInt 0).
Proof.
  intros H Hmode Hfiles.
  destruct (run_follows cfg w files H Hfiles) as [Hobs Hout].
  rewrite Hmode in Hobs, Hout.
  destruct (fully_manual_steps w None (work_items w (sorted files))) as [mn' E].
  rewrite E in Hobs, Hout. cbn [fst snd] in Hobs, Hout.
  destruct Hout as (g' & Hrun & Hview).
  assert (Hprompts : prompts (fst (run cfg w))
                     = map laplace_of (work_items w (sorted files))).
  { rewrite prompts_observations, Hobs.
    generalize (work_items w (sorted files)).
    intros l. induction l; simpl; congruence. }
  exists (fst (run cfg w)), g'. repeat split.
  - now rewrite <- Hrun, <- run_pair.
  - rewrite opened_observations, Hobs.
    generalize (work_items w (sorted files)).
    intros l. induction l; simpl; congruence.
  - exact Hprompts.
  - now rewrite Hprompts, length_map.
  - rewrite thresholds_observations, Hobs.
    generalize (work_items w (sorted files)).
    intros l. induction l; simpl; congruence.
  - unfold view in Hview. congruence.
  - intros imp_laplace g t g1.
    assert (W : wp (threshold_block cfg w imp_laplace) g
                  (fun _ o => forall g1, o = Ok tt g1 -> thresh_value g1 = PyInt 0)).
    { destruct g as [tv mn pn]. unfold threshold_block. rewrite Hmode.
      change (String.eqb "Fully manual" "Fully automatic") with false.
      change (String.eqb "Fully manual" "Fully manual") with true.
      cbv iota. unfold when.
      repeat wp_any; intros g2 Hg2; try discriminate;
        injection Hg2 as <-; reflexivity. }
    unfold wp in W. intros E'. rewrite E' in W. now apply W.
Qed.

Lemma fully_manual_prompts_every_series_witness :
  exists tr g',
    run (sample_config "Fully manual" false) (sample_world (1.5%float, 7%float))
    = (tr, Ok tt g')
    /\ prompts tr = map laplace_of [(0, 0); (0, 1); (1, 0)]
    /\ List.length (prompts tr) = 3%nat.
Proof.
  destruct (fully_manual_prompts_every_series
              (sample_config "Fully manual" false)
              (sample_world (1.5%float, 7%float))
              ["/in/sample.nd2"; "/in/sub/other.nd2"])
    as (tr & g' & Hrun & _ & Hp & Hlen & _).
  - intros ev. reflexivity.
  - reflexivity.
  - vm_compute. reflexivity.
  - exists tr, g'. split; [exact Hrun|]. split; [exact Hp|exact Hlen].
Defined.

(** C4.  Fully automatic, no call raising, at least one series in the run:
    the first series reaches line 312 with [min_thresh_value] unbound, and
    the script ends there with [NameError]; only that one series was
    opened, no dialog was shown and [IJ.setThreshold] was never called. *)
Theorem fully_automatic_name_error cfg w files first rest :
  healthy w ->
  thresh_method cfg = "Fully automatic" ->
  getFileList (fs w) (src_dir cfg) (filename_filter cfg) = Some files ->
  work_items w (sorted files) = first :: rest ->
  exists tr,
    run cfg w = (tr, Raise (NameError "min_thresh_value"))
    /\ opened tr = [imp_of first]
    /\ prompts tr = []
    /\ thresholds_set tr = [].
Proof.
  intros H Hmode Hfiles Hitems.
  destruct (run_follows cfg w files H Hfiles) as [Hobs Hout].
  rewrite Hmode, Hitems in Hobs, Hout.
  cbn [threshold_steps threshold_step] in Hobs, Hout.
  change (String.eqb "Fully automatic" "Fully automatic") with true in Hobs, Hout.
  cbn [fst snd] in Hobs, Hout.
  exists (fst (run cfg w)). repeat split.
  - now rewrite <- Hout, <- run_pair.
  - now rewrite opened_observations, Hobs.
  - now rewrite prompts_observations, Hobs.
  - now rewrite thresholds_observations, Hobs.
Qed.

Lemma fully_automatic_name_error_witness :
  exists tr,
    run (sample_config "Fully automatic" false) (sample_world (1.5%float, 7%float))
    = (tr, Raise (NameError "min_thresh_value"))
    /\ opened tr = [imp_of (0, 0)]
    /\ prompts tr = []
    /\ thresholds_set tr = [].
Proof.
  apply (fully_automatic_name_error
           (sample_config "Fully automatic" false)
           (sample_world (1.5%float, 7%float))
           ["/in/sample.nd2"; "/in/sub/other.nd2"]
           (0, 0) [(0, 1); (1, 0)]).
  - intros ev. reflexivity.
  - reflexivity.
  - vm_compute. reflexivity.
  - vm_compute. reflexivity.
Defined.

(** C10.  Manual once and apply to all, no call raising, at least two
    series in the run: when the maximum threshold left at the first dialog
    equals 0, [thresh_value == 0] still holds at the second series and the
    dialog opens again there. *)
Theorem manual_once_zero_max_not_retained cfg w files first second rest :
  healthy w ->
  thresh_method cfg = "Manual once and apply to all" ->
  getFileList (fs w) (src_dir cfg) (filename_filter cfg) = Some files ->
  work_items w (sorted files) = first :: second :: rest ->
  py_eq_zero (PyFloat (snd (user_thresholds w (laplace_of first)))) = true ->
  exists later,
    prompts (fst (run cfg w)) = laplace_of first :: laplace_of second :: later.
Proof.
  intros H Hmode Hfiles Hitems Hz.
  destruct (run_follows cfg w files H Hfiles) as [Hobs _].
  rewrite Hmode, Hitems in Hobs.
  cbn [threshold_steps] in Hobs.
  rewrite (manual_once_unset_step w (PyInt 0) None first eq_refl) in Hobs.
  rewrite (manual_once_unset_step w _ _ second Hz) in Hobs.
  destruct (threshold_steps _ w _ rest) as [os r].
  rewrite prompts_observations, Hobs. cbn.
  now eexists.
Qed.

Lemma manual_once_zero_max_not_retained_witness :
  exists later,
    prompts (fst (run (sample_config "Manual once and apply to all" false)
                      (sample_world ((-5)%float, (-0)%float))))
    = laplace_of (0, 0) :: laplace_of (0, 1) :: later.
Proof.
  apply (manual_once_zero_max_not_retained
           (sample_config "Manual once and apply to all" false)
           (sample_world ((-5)%float, (-0)%float))
           ["/in/sample.nd2"; "/in/sub/other.nd2"]
           (0, 0) (0, 1) [(1, 0)]).
  - intros ev. reflexivity.
  - reflexivity.
  - vm_compute. reflexivity.
  - vm_compute. reflexivity.
  - vm_compute. reflexivity.
Defined.

(** ** What a computation can emit, in any world *)

Section EmitsOnly.
Variable P : event -> Prop.

Lemma eo_ret {A : Type} (a : A) : emits_only P (ret a).
Proof. intros g. constructor. Qed.

Lemma eo_raise {A : Type} (e : exn) : emits_only P (@raise A e).
Proof. intros g. constructor. Qed.

Lemma eo_call w ev : P ev -> emits_only P (call w ev).
Proof.
  intros HP g. unfold call. destruct (faulty w ev); simpl; auto.
Qed.

Lemma eo_bind {A B : Type} (m : M A) (k : A -> M B) :
  emits_only P m -> (forall a, emits_only P (k a)) -> emits_only P (bind m k).
Proof.
  intros Hm Hk g. unfold bind. specialize (Hm g).
  destruct (m g) as [t1 [a g1|e]]; simpl in *; [|exact Hm].
  specialize (Hk a g1). destruct (k a g1) as [t2 o]. simpl in *.
  now apply Forall_app.
Qed.

Lemma eo_when b (m : M unit) : emits_only P m -> emits_only P (when b m).
Proof. destruct b; simpl; auto using eo_ret. Qed.

Lemma eo_for {A : Type} (l : list A) (body : A -> M unit) :
  (forall a, emits_only P (body a)) -> emits_only P (for_ l body).
Proof.
  intros Hb. induction l; simpl; [apply eo_ret|].
  apply eo_bind; auto.
Qed.

Lemma eo_for_fold {A S : Type} (l : list A) (body : S -> A -> M S) (s : S) :
  (forall s a, emits_only P (body s a)) -> emits_only P (for_fold l body s).
Proof.
  intros Hb. revert s. induction l; intros s; simpl; [apply eo_ret|].
  apply eo_bind; auto.
Qed.

Lemma eo_get_thresh_value : emits_only P get_thresh_value.
Proof. intros g. constructor. Qed.

Lemma eo_get_pad_number : emits_only P get_pad_number.
Proof. intros g. constructor. Qed.

Lemma eo_get_min_thresh_value : emits_only P get_min_thresh_value.
Proof.
  intros g. unfold get_min_thresh_value.
  destruct (min_thresh_value g); constructor.
Qed.

Lemma eo_set_thresh_value v : emits_only P (set_thresh_value v).
Proof. intros g. constructor. Qed.

Lemma eo_set_min_thresh_value v : emits_only P (set_min_thresh_value v).
Proof. intros g. constructor. Qed.

Lemma eo_set_pad_number n : emits_only P (set_pad_number n).
Proof. intros g. constructor. Qed.
End EmitsOnly.

(** Walks a computation by its syntax and leaves one goal [P ev] per
    call; a computation it does not know is left as a goal. *)
Ltac emits_step :=
  lazymatch goal with
  | |- emits_only _ (bind _ _) => apply eo_bind; [|intro]
  | |- emits_only _ (ret _) => apply eo_ret
  | |- emits_only _ (raise _) => apply eo_raise
  | |- emits_only _ (when _ _) => apply eo_when
  | |- emits_only _ (for_ _ _) => apply eo_for; intro
  | |- emits_only _ (for_fold _ _ _) => apply eo_for_fold; intros ? ?
  | |- emits_only _ get_thresh_value => apply eo_get_thresh_value
  | |- emits_only _ get_pad_number => apply eo_get_pad_number
  | |- emits_only _ get_min_thresh_value => apply eo_get_min_thresh_value
  | |- emits_only _ (set_thresh_value _) => apply eo_set_thresh_value
  | |- emits_only _ (set_min_thresh_value _) => apply eo_set_min_thresh_value
  | |- emits_only _ (set_pad_number _) => apply eo_set_pad_number
  | |- emits_only _ (call _ _) => apply eo_call
  | |- emits_only _ (if ?b then _ else _) => destruct b
  | |- emits_only _ (match ?x with Some _ => _ | None => _ end) => destruct x
  | |- emits_only _ (match ?x with [] => _ | _ :: _ => _ end) => destruct x
  | |- emits_only _ (let '(_, _) := ?x in _) => destruct x
  end.

Ltac emits := repeat emits_step.

Lemma series_body_emits (P : event -> Prop) cfg w fid file bn n idx s :
  (forall ev, is_makedirs ev = false ->
              is_exporter_run ev = false ->
              (forall text shown, ev = WaitForUserDialog text shown ->
                 String.eqb (thresh_method cfg) "Fully automatic" = false) ->
              P ev) ->
  emits_only P (series_body cfg w fid file bn n idx s).
Proof.
  intros HP.
  unfold series_body, progress_bar, py_index, open_single_series_with_BF,
    threshold_block.
  destruct (String.eqb (thresh_method cfg) "Fully automatic") eqn:Hmode;
    emits; apply HP; try reflexivity; intros; discriminate || reflexivity.
Qed.

Lemma main_emits (P : event -> Prop) cfg w :
  (forall ev, is_makedirs ev = false ->
              is_exporter_run ev = false ->
              (forall text shown, ev = WaitForUserDialog text shown ->
                 String.eqb (thresh_method cfg) "Fully automatic" = false) ->
              P ev) ->
  emits_only P (main cfg w).
Proof.
  intros HP.
  unfold main, timed_log, file_body, get_series_info_from_ome_metadata,
    progress_bar.
  emits; try (apply series_body_emits; exact HP);
    apply HP; try reflexivity; intros; discriminate.
Qed.

(** In no world does the script create a directory or go through
    [BFExport]: [check_folder] and [BFExport] are never called. *)
Lemma run_never_makes_directories cfg w :
  Forall (fun ev => is_makedirs ev = false /\ is_exporter_run ev = false)
    (fst (run cfg w)).
Proof.
  apply (main_emits _ cfg w). intros ev H1 H2 _. now split.
Qed.

(** In no world does the Fully automatic mode open the threshold dialog. *)
Lemma fully_automatic_never_prompts cfg w :
  thresh_method cfg = "Fully automatic" ->
  prompts (fst (run cfg w)) = [].
Proof.
  intros Hmode.
  assert (F : Forall (fun ev => forall text shown, ev <> WaitForUserDialog text shown)
                (fst (run cfg w))).
  { apply (main_emits _ cfg w). intros ev _ _ Hp text shown ->.
    specialize (Hp text shown eq_refl). rewrite Hmode in Hp. discriminate. }
  unfold prompts. induction F as [|ev tr Hev _ IH]; [reflexivity|].
  simpl. rewrite IH. destruct ev; try reflexivity.
  now elim (Hev text shown).
Qed.

Lemma fully_automatic_never_prompts_witness :
  prompts (fst (run (sample_config "Fully automatic" true)
                    (sample_world (1.5%float, 7%float)))) = [].
Proof.
  apply (fully_automatic_never_prompts (sample_config "Fully automatic" true)).
  reflexivity.
Defined.

(** ** Fully automatic mode on three series *)

(** C3.  The script at a run of three series in Fully automatic mode: no
    dialog is shown and the first series is binarised by "Moments" on a
    dark background, but line 312 then raises [NameError], so the second
    and third series are never opened and compute no threshold. *)
Theorem fully_automatic_only_first_series :
  let w := sample_world (1.5%float, 7%float) in
  let r := run (sample_config "Fully automatic" false) w in
  work_items w (sorted ["/in/sample.nd2"; "/in/sub/other.nd2"])
  = [(0, 0); (0, 1); (1, 0)]
  /\ snd r = Raise (NameError "min_thresh_value")
  /\ prompts (fst r) = []
  /\ opened (fst r) = [imp_of (0, 0)]
  /\ auto_thresholded (fst r) = [laplace_of (0, 0)].
Proof. vm_compute. repeat split; reflexivity. Qed.

(** ** Output names *)

Lemma out_ratio_ignores_stripped_name cfg file bn1 bn2 :
  out_ratio cfg file bn1 = out_ratio cfg file bn2.
Proof. reflexivity. Qed.

(** C6.  The script on [/in/sample.nd2] with output folder [/out]: the
    name it saves under keeps the extension, [sample.nd2_ratio.tif] and
    [sample.nd2_ratio_chnlaligned.tif], where stripping the extension (as
    line 243 does) would give [sample_ratio.tif] and
    [sample_ratio_chnlaligned.tif]. *)
Theorem out_ratio_keeps_extension :
  let plain := sample_config "Manual once and apply to all" false in
  let aligned := sample_config "Manual once and apply to all" true in
  let w := sample_world (1.5%float, 7%float) in
  fst (PosixPath.splitext (PosixPath.basename "/in/sample.nd2")) = "sample"
  /\ out_ratio plain "/in/sample.nd2" "sample" = "/out/sample.nd2_ratio.tif"
  /\ out_ratio aligned "/in/sample.nd2" "sample"
     = "/out/sample.nd2_ratio_chnlaligned.tif"
  /\ spec_out_ratio plain "/in/sample.nd2" = "/out/sample_ratio.tif"
  /\ spec_out_ratio aligned "/in/sample.nd2" = "/out/sample_ratio_chnlaligned.tif"
  /\ saved (fst (run plain w))
     = ["/out/sample.nd2_ratio.tif"; "/out/sample.nd2_ratio.tif";
        "/out/other.nd2_ratio.tif"]
  /\ saved (fst (run aligned w))
     = ["/out/sample.nd2_ratio_chnlaligned.tif";
        "/out/sample.nd2_ratio_chnlaligned.tif";
        "/out/other.nd2_ratio_chnlaligned.tif"].
Proof. vm_compute. repeat split; reflexivity. Qed.

(** ** Saving the result *)

(** C9.  The script on an output folder that does not exist: each result
    goes to [IJ.saveAs(imp_result, "Tiff", path)] under that folder, and
    the run neither creates a directory nor goes through the Bio-Formats
    exporter with its [windowless] and [compression] options. *)
Theorem export_creates_no_directory :
  let cfg := sample_config "Manual once and apply to all" false in
  let w := sample_world (1.5%float, 7%float) in
  path_exists w "/out" = false
  /\ snd (run cfg w)
     = Ok tt (mkGlobals (PyFloat 7) (Some (PyFloat 1.5)) 1)
  /\ saved (fst (run cfg w))
     = ["/out/sample.nd2_ratio.tif"; "/out/sample.nd2_ratio.tif";
        "/out/other.nd2_ratio.tif"]
  /\ existsb is_makedirs (fst (run cfg w)) = false
  /\ existsb is_exporter_run (fst (run cfg w)) = false.
Proof. vm_compute. repeat split; reflexivity. Qed.

(** ** Closing the images of a series *)

Lemma series_body_closes cfg w fid file bn n idx s g :
  wp (series_body cfg w fid file bn n idx s) g
    (fun t o => forall g1, o = Ok tt g1 ->
       t = firstn (List.length t - 6) t
           ++ [Close (mkImg fid s Imp); Close (mkImg fid s ImpResult);
               Close (mkImg fid s ImpC1); Close (mkImg fid s ImpC2);
               Close (mkImg fid s ImpLaplace); Close (mkImg fid s ImpSegment)]
       /\ closed t = [mkImg fid s Imp; mkImg fid s ImpResult; mkImg fid s ImpC1;
                      mkImg fid s ImpC2; mkImg fid s ImpLaplace;
                      mkImg fid s ImpSegment]
       /\ allocated t = [mkImg fid s Imp; mkImg fid s ImpC1; mkImg fid s ImpC2;
                         mkImg fid s ImpSegment; mkImg fid s ImpLaplace;
                         mkImg fid s ImpQuotient; mkImg fid s ImpResult]).
Proof.
  destruct g as [tv mn pn].
  unfold series_body, progress_bar, py_index, open_single_series_with_BF,
    threshold_block.
  destruct (n =? 0); [apply wp_bind, wp_raise; intros; discriminate|].
  destruct (nth_error idx (Z.to_nat s));
    [|apply wp_bind, wp_call; intros _; [intros; discriminate|];
      apply wp_bind, wp_raise; intros; discriminate].
  repeat wp_any; intros g1 Hg1; try discriminate;
    (split; [reflexivity | split; reflexivity]).
Qed.

(** C7 (amended).  In any world, when one turn of the series loop
    completes, the last six calls of its trace, which ends before the next
    series begins, close the opened stack, the result, both channel
    duplicates, the edge image and the segmentation stack, and nothing was
    closed before them; these are all the images the turn created except
    the intermediate quotient of line 329. *)
Theorem series_stacks_closed_on_completion cfg w fid file bn n idx s g tr g' :
  series_body cfg w fid file bn n idx s g = (tr, Ok tt g') ->
  let new := mkImg fid s in
  (exists before,
     tr = before ++ [Close (new Imp); Close (new ImpResult); Close (new ImpC1);
                     Close (new ImpC2); Close (new ImpLaplace);
                     Close (new ImpSegment)]
     /\ closed before = [])
  /\ closed tr = [new Imp; new ImpResult; new ImpC1; new ImpC2;
                  new ImpLaplace; new ImpSegment]
  /\ allocated tr = [new Imp; new ImpC1; new ImpC2; new ImpSegment;
                     new ImpLaplace; new ImpQuotient; new ImpResult]
  /\ (forall i, In i (allocated tr) -> img_role i <> ImpQuotient ->
                In i (closed tr)).
Proof.
  intros E new.
  assert (W := series_body_closes cfg w fid file bn n idx s g).
  unfold wp in W. rewrite E in W. cbn [fst snd] in W.
  destruct (W g' eq_refl) as (Hend & Hc & Ha).
  split; [|split; [exact Hc|split; [exact Ha|]]].
  - exists (firstn (List.length tr - 6) tr). split; [exact Hend|].
    rewrite Hend in Hc. unfold closed in Hc. rewrite flat_map_app in Hc.
    fold (closed (firstn (List.length tr - 6) tr)) in Hc. cbn in Hc.
    rewrite <- (app_nil_l [_; _; _; _; _; _]) in Hc at 2.
    now apply app_inv_tail in Hc.
  - intros i Hi Hrole. rewrite Hc. rewrite Ha in Hi. subst new. simpl in *.
    intuition (subst; simpl in *; try contradiction; auto).
Qed.

Lemma series_stacks_closed_on_completion_witness :
  let tr := fst (series_body (sample_config "Fully manual" true)
                   (sample_world (1.5%float, 7%float))
                   0 "/in/sample.nd2" "sample" 2 [0; 1] 1 unbound) in
  closed tr = [mkImg 0 1 Imp; mkImg 0 1 ImpResult; mkImg 0 1 ImpC1;
               mkImg 0 1 ImpC2; mkImg 0 1 ImpLaplace; mkImg 0 1 ImpSegment]
  /\ (forall i, In i (allocated tr) -> img_role i <> ImpQuotient ->
                In i (closed tr)).
Proof.
  destruct (series_stacks_closed_on_completion
              (sample_config "Fully manual" true)
              (sample_world (1.5%float, 7%float))
              0 "/in/sample.nd2" "sample" 2 [0; 1] 1 unbound
              (fst (series_body (sample_config "Fully manual" true)
                      (sample_world (1.5%float, 7%float))
                      0 "/in/sample.nd2" "sample" 2 [0; 1] 1 unbound))
              (mkGlobals (PyInt 0) (Some (PyFloat 1.5)) 0))
    as (_ & Hc & _ & Hall).
  - vm_compute. reflexivity.
  - split; [exact Hc | exact Hall].
Defined.

(** C7, as stated, fails: a series whose pipeline raises leaves every
    image it created open, and nothing closes them afterwards. *)
Lemma failed_series_leaves_stacks_open :
  let r := run (sample_config "Fully automatic" false)
               (sample_world (1.5%float, 7%float)) in
  snd r = Raise (NameError "min_thresh_value")
  /\ allocated (fst r)
     = [mkImg 0 0 Imp; mkImg 0 0 ImpC1; mkImg 0 0 ImpC2;
        mkImg 0 0 ImpSegment; mkImg 0 0 ImpLaplace]
  /\ closed (fst r) = [].
Proof. vm_compute. repeat split; reflexivity. Qed.

(** ** Patterns without wildcards *)

Lemma translate_fuel_literal (p : list ascii) :
  forallb (fun c => negb (is_meta c)) p = true ->
  forall fuel, (List.length p <= fuel)%nat ->
    Fnmatch.translate_fuel fuel p = map Fnmatch.TLit p.
Proof.
  induction p as [|c p IH]; intros Hp fuel Hfuel.
  - now destruct fuel.
  - destruct fuel as [|fuel]; [simpl in Hfuel; lia|].
    simpl in Hp. apply andb_true_iff in Hp. destruct Hp as [Hc Hp].
    unfold is_meta in Hc. apply negb_true_iff in Hc.
    apply orb_false_iff in Hc. destruct Hc as [Hc H3].
    apply orb_false_iff in Hc. destruct Hc as [H1 H2].
    simpl. rewrite H1, H2, H3. f_equal. apply IH; [exact Hp|].
    simpl in Hfuel. lia.
Qed.

Lemma translate_star_suffix (suffix : string) :
  meta_free suffix = true ->
  Fnmatch.translate ("*" ++ suffix)
  = Fnmatch.TStar :: map Fnmatch.TLit (list_ascii_of_string suffix).
Proof.
  intros Hm. unfold Fnmatch.translate. simpl. f_equal.
  now apply translate_fuel_literal.
Qed.

Lemma literal_sets_ok (p : list ascii) :
  forallb Fnmatch.set_ok (map Fnmatch.TLit p) = true.
Proof. induction p; simpl; auto. Qed.

Lemma matches_literal (p x : list ascii) :
  Fnmatch.matches (map Fnmatch.TLit p) x = true <-> x = p.
Proof.
  revert x. induction p as [|c p IH]; intros x; simpl.
  - destruct x; split; congruence.
  - destruct x as [|a x]; [split; congruence|].
    rewrite andb_true_iff, IH. split.
    + intros [Hc ->]. apply Ascii.eqb_eq in Hc. now subst.
    + intros [= -> ->]. split; [apply Ascii.eqb_refl | reflexivity].
Qed.

Lemma matches_star (ts : list Fnmatch.tok) (x : list ascii) :
  Fnmatch.matches (Fnmatch.TStar :: ts) x = true
  <-> exists pre suf, x = pre ++ suf /\ Fnmatch.matches ts suf = true.
Proof.
  simpl. induction x as [|a x IH].
  - rewrite orb_false_r. split.
    + intros Hm. now exists [], [].
    + intros (pre & suf & E & Hm).
      symmetry in E. apply app_eq_nil in E. destruct E as [_ ->]. exact Hm.
  - rewrite orb_true_iff, IH. split.
    + intros [Hm | (pre & suf & -> & Hm)].
      * now exists [], (a :: x).
      * now exists (a :: pre), suf.
    + intros (pre & suf & E & Hm). destruct pre as [|b pre].
      * left. simpl in E. now subst suf.
      * right. injection E as -> ->. now exists pre, suf.
Qed.

(** ** [endswith] *)

Lemma take_drop (k : nat) (s : string) :
  (PosixPath.take k s ++ PosixPath.drop k s)%string = s.
Proof.
  revert s. induction k as [|k IH]; intros s; [reflexivity|].
  destruct s as [|a s]; [reflexivity|]. simpl. now rewrite IH.
Qed.

Lemma length_append (s t : string) :
  String.length (s ++ t) = (String.length s + String.length t)%nat.
Proof. induction s; simpl; auto. Qed.

Lemma drop_append (s t : string) :
  PosixPath.drop (String.length s) (s ++ t) = t.
Proof. induction s; simpl; auto. Qed.

Lemma endswith_iff (s t : string) :
  PosixPath.endswith s t = true <-> exists pre, s = (pre ++ t)%string.
Proof.
  unfold PosixPath.endswith. rewrite andb_true_iff, String.eqb_eq. split.
  - intros [_ E].
    exists (PosixPath.take (String.length s - String.length t) s).
    rewrite <- (take_drop (String.length s - String.length t) s) at 1.
    now rewrite E.
  - intros [pre ->]. rewrite length_append. split.
    + apply Nat.leb_le. lia.
    + replace (String.length pre + String.length t - String.length t)%nat
        with (String.length pre) by lia.
      apply drop_append.
Qed.

Lemma list_ascii_of_append (s t : string) :
  list_ascii_of_string (s ++ t)
  = list_ascii_of_string s ++ list_ascii_of_string t.
Proof. induction s; simpl; congruence. Qed.

(** With a suffix free of wildcards, the pattern ["*" + suffix] accepts
    exactly the names that end with the suffix. *)
Lemma star_suffix_matches (suffix name : string) :
  Fnmatch.matches
    (Fnmatch.TStar :: map Fnmatch.TLit (list_ascii_of_string suffix))
    (list_ascii_of_string name)
  = PosixPath.endswith name suffix.
Proof.
  apply eq_true_iff_eq. rewrite matches_star, endswith_iff. split.
  - intros (pre & suf & E & Hm). apply matches_literal in Hm. subst suf.
    exists (string_of_list_ascii pre).
    rewrite <- (string_of_list_ascii_of_string name), E.
    rewrite <- (list_ascii_of_string_of_list_ascii pre) at 1.
    now rewrite <- list_ascii_of_append, string_of_list_ascii_of_string.
  - intros [pre ->].
    exists (list_ascii_of_string pre), (list_ascii_of_string suffix).
    split; [apply list_ascii_of_append | now apply matches_literal].
Qed.

Lemma filter_star_suffix (names : list string) (suffix : string) :
  meta_free suffix = true ->
  Fnmatch.filter names ("*" ++ suffix)
  = Some (List.filter (fun name => PosixPath.endswith name suffix) names).
Proof.
  intros Hm. unfold Fnmatch.filter. rewrite (translate_star_suffix suffix Hm).
  cbn [forallb Fnmatch.set_ok]. rewrite literal_sets_ok. cbn [andb].
  f_equal. apply filter_ext. intros name. apply star_suffix_matches.
Qed.

(** ** [os.walk] reaches the files at every depth *)

Lemma node_induction (P : node -> Prop) :
  (forall f, P (File f)) ->
  (forall d entries, Forall P entries -> P (Dir d entries)) ->
  forall n, P n.
Proof.
  intros HF HD. fix IH 1. intros [f|d entries].
  - apply HF.
  - apply HD. induction entries as [|e entries IHe]; constructor.
    + apply IH.
    + exact IHe.
Qed.

Lemma os_walk_Dir (top d : string) (entries : list node) :
  os_walk top (Dir d entries)
  = (top, dirnames entries, filenames entries)
      :: flat_map (fun e => match e with
                            | File _ => []
                            | Dir sub _ => os_walk (PosixPath.join top sub) e
                            end) entries.
Proof.
  reflexivity.
Qed.

Lemma In_filenames (f : string) (entries : list node) :
  In f (filenames entries) <-> In (File f) entries.
Proof.
  unfold filenames. rewrite in_flat_map. split.
  - intros ([g|d es] & Hin & Hf); simpl in Hf; [|contradiction].
    destruct Hf as [->|[]]. exact Hin.
  - intros Hin. exists (File f). split; [exact Hin | now left].
Qed.

Lemma os_walk_file_at (root : node) :
  forall top dirpath f,
    (exists ds fns, In (dirpath, ds, fns) (os_walk top root) /\ In f fns)
    <-> file_at top root dirpath f.
Proof.
  induction root as [g|d entries IH] using node_induction; intros top dirpath f.
  - split.
    + intros (ds & fns & [] & _).
    + intros Hat. inversion Hat.
  - rewrite os_walk_Dir. split.
    + intros (ds & fns & [E|Hin] & Hf).
      * injection E as <- <- <-. apply file_here. now apply In_filenames.
      * apply in_flat_map in Hin. destruct Hin as ([g|sub es] & He & Hin);
          [contradiction|].
        rewrite Forall_forall in IH.
        apply (file_below top d entries sub es); [exact He|].
        apply (IH _ He). now exists ds, fns.
    + intros Hat. inversion Hat as [? ? ? ? Hf|? ? ? sub es ? ? He Hsub]; subst.
      * exists (dirnames entries), (filenames entries).
        split; [now left | now apply In_filenames].
      * rewrite Forall_forall in IH.
        apply (IH _ He) in Hsub. destruct Hsub as (ds & fns & Hin & Hf).
        exists ds, fns. split; [|exact Hf].
        right. apply in_flat_map. exists (Dir sub es). now split.
Qed.

(** ** [getFileList] *)

Lemma getFileList_loop_suffix triples suffix files :
  meta_free suffix = true ->
  getFileList_loop triples suffix files
  = Some (files ++
          flat_map (fun t : string * list string * list string =>
                      map (fun f => PosixPath.join (fst (fst t)) f)
                        (List.filter (fun name => PosixPath.endswith name suffix)
                           (snd t)))
            triples).
Proof.
  intros Hm. revert files.
  induction triples as [|[[dirpath ds] fns] triples IH]; intros files;
    cbn [getFileList_loop flat_map fst snd].
  - now rewrite app_nil_r.
  - rewrite (filter_star_suffix fns suffix Hm), IH. now rewrite <- app_assoc.
Qed.

Lemma getFileList_suffix root directory suffix :
  meta_free suffix = true ->
  exists files,
    getFileList root directory suffix = Some files
    /\ forall p, In p files <->
         exists dirpath f,
           file_at directory root dirpath f
           /\ PosixPath.endswith f suffix = true
           /\ p = PosixPath.join dirpath f.
Proof.
  intros Hm. unfold getFileList.
  rewrite (getFileList_loop_suffix _ suffix [] Hm). eexists. split; [reflexivity|].
  intros p. cbn [app]. rewrite in_flat_map. split.
  - intros ([[dirpath ds] fns] & Hin & Hp). cbn [fst snd] in Hp.
    apply in_map_iff in Hp. destruct Hp as (f & <- & Hf).
    apply filter_In in Hf. destruct Hf as [Hf He].
    exists dirpath, f. repeat split; [|exact He].
    apply os_walk_file_at. now exists ds, fns.
  - intros (dirpath & f & Hat & He & ->).
    apply os_walk_file_at in Hat. destruct Hat as (ds & fns & Hin & Hf).
    exists (dirpath, ds, fns). split; [exact Hin|]. cbn [fst snd].
    apply in_map. apply filter_In. now split.
Qed.

(** ** [sorted]: the processing order *)

Lemma ascii_compare_N (a b : ascii) :
  Ascii.compare a b = N.compare (N_of_ascii a) (N_of_ascii b).
Proof. reflexivity. Qed.

Lemma string_compare_trans_le (s1 : string) :
  forall s2 s3,
    String.compare s1 s2 <> Gt -> String.compare s2 s3 <> Gt ->
    String.compare s1 s3 <> Gt.
Proof.
  induction s1 as [|a s1 IH]; intros [|b s2] [|c s3]; simpl;
    try congruence.
  rewrite !ascii_compare_N.
  destruct (N.compare_spec (N_of_ascii a) (N_of_ascii b)) as [E1|L1|G1];
    destruct (N.compare_spec (N_of_ascii b) (N_of_ascii c)) as [E2|L2|G2];
    destruct (N.compare_spec (N_of_ascii a) (N_of_ascii c)) as [E3|L3|G3];
    try congruence; try lia.
  apply IH.
Qed.

Lemma str_le_trans (a b c : string) : str_le a b -> str_le b c -> str_le a c.
Proof.
  unfold str_le, String.leb. intros H1 H2.
  assert (T := string_compare_trans_le a b c).
  destruct (String.compare a b); destruct (String.compare b c);
    destruct (String.compare a c); try discriminate; try reflexivity;
    exfalso; apply T; congruence.
Qed.

Lemma str_le_antisym (a b : string) : str_le a b -> str_le b a -> a = b.
Proof. apply String.leb_antisym. Qed.

Lemma sorted_is_sorted (files : list string) :
  StronglySorted str_le (sorted files).
Proof.
  apply Sorted_StronglySorted.
  - intros a b c. apply str_le_trans.
  - apply StringSort.Sorted_sort.
Qed.

(** Two sorted lists with the same elements are the same list. *)
Lemma sorted_unique (l1 : list string) :
  forall l2,
    StronglySorted str_le l1 -> StronglySorted str_le l2 ->
    Permutation l1 l2 -> l1 = l2.
Proof.
  induction l1 as [|a l1 IH]; intros l2 S1 S2 HP.
  - now apply Permutation_nil in HP.
  - destruct l2 as [|b l2].
    + apply Permutation_sym, Permutation_nil in HP. discriminate.
    + inversion S1 as [|? ? S1' F1]; inversion S2 as [|? ? S2' F2]; subst.
      assert (E : a = b).
      { assert (Ha : In a (b :: l2))
          by (apply (Permutation_in _ HP); now left).
        assert (Hb : In b (a :: l1))
          by (apply (Permutation_in _ (Permutation_sym HP)); now left).
        rewrite Forall_forall in F1, F2.
        destruct Ha as [->|Ha]; [reflexivity|].
        destruct Hb as [->|Hb]; [reflexivity|].
        apply str_le_antisym; auto. }
      subst b. f_equal. apply IH; auto.
      now apply Permutation_cons_inv in HP.
Qed.

Lemma sorted_stable_order (files files' : list string) :
  Permutation files files' -> sorted files' = sorted files.
Proof.
  intros HP. apply sorted_unique; try apply sorted_is_sorted.
  transitivity files'; [apply Permutation_sym, StringSort.Permuted_sort|].
  transitivity files; [now apply Permutation_sym|].
  apply StringSort.Permuted_sort.
Qed.

(** ** The file name of a joined path *)

Lemma rfind_from_absent c y i last :
  PosixPath.existsb_char (fun a => Ascii.eqb a c) y = false ->
  PosixPath.rfind_from c y i last = last.
Proof.
  revert i last. induction y as [|a y IH]; intros i last Hy; [reflexivity|].
  simpl in *. apply orb_false_iff in Hy. destruct Hy as [Ha Hy].
  rewrite Ha. now apply IH.
Qed.

Lemma rfind_from_append c x y i last :
  PosixPath.rfind_from c (x ++ y) i last
  = PosixPath.rfind_from c y (i + Z.of_nat (String.length x))
      (PosixPath.rfind_from c x i last).
Proof.
  revert i last. induction x as [|a x IH]; intros i last.
  - simpl. now rewrite Z.add_0_r.
  - cbn [String.append PosixPath.rfind_from String.length]. rewrite IH.
    f_equal. lia.
Qed.

Lemma append_assoc (x y z : string) :
  ((x ++ y) ++ z)%string = (x ++ y ++ z)%string.
Proof. induction x; simpl; congruence. Qed.

Lemma drop_past (x y : string) (k : nat) :
  PosixPath.drop (String.length x + k) (x ++ y) = PosixPath.drop k y.
Proof. induction x; simpl; auto. Qed.

Lemma basename_after_slash (x f : string) :
  slash_free f = true ->
  PosixPath.basename (x ++ "/" ++ f) = f.
Proof.
  unfold slash_free. intros Hf. apply negb_true_iff in Hf.
  unfold PosixPath.basename, PosixPath.rfind, PosixPath.slice_from.
  rewrite rfind_from_append.
  cbn [String.append PosixPath.rfind_from].
  change (Ascii.eqb "/" PosixPath.sep) with true. cbv iota.
  rewrite (rfind_from_absent PosixPath.sep f _ _ Hf).
  replace (Z.to_nat (0 + Z.of_nat (String.length x) + 1))
    with (String.length x + 1)%nat by lia.
  now rewrite drop_past.
Qed.

Lemma basename_plain (f : string) :
  slash_free f = true -> PosixPath.basename f = f.
Proof.
  unfold slash_free. intros Hf. apply negb_true_iff in Hf.
  unfold PosixPath.basename, PosixPath.rfind.
  now rewrite (rfind_from_absent PosixPath.sep f _ _ Hf).
Qed.

Lemma basename_join (a f : string) :
  slash_free f = true -> PosixPath.basename (PosixPath.join a f) = f.
Proof.
  intros Hf. unfold PosixPath.join.
  assert (Hstart : PosixPath.startswith f "/" = false).
  { destruct f as [|c f]; [reflexivity|].
    unfold PosixPath.startswith. cbn [String.prefix].
    destruct (ascii_dec "/" c) as [E|]; [|reflexivity].
    subst c. discriminate Hf. }
  rewrite Hstart.
  destruct (String.eqb_spec a "") as [->|Ha]; simpl orb.
  - now apply basename_plain.
  - destruct (PosixPath.endswith a "/") eqn:He.
    + apply endswith_iff in He. destruct He as [pre ->].
      rewrite append_assoc. now apply basename_after_slash.
    + now apply basename_after_slash.
Qed.

(** ** The File Enumerator *)

(** C8 (amended).  For every directory tree and every suffix string that
    contains none of the wildcard characters [*], [?] and [[], [getFileList]
    returns a list, and a path is in it exactly when it is the join of a
    directory reached at some depth under the root with the name of a file
    that directory lists and that name ends with the suffix; when names
    hold no "/" the file name of every returned path ends with the suffix.
    [sorted] puts the list in lexicographic order without adding or
    dropping a path, and the order it yields does not depend on the order
    in which the files were found. *)
Theorem file_enumerator_suffix_sorted root directory suffix :
  meta_free suffix = true ->
  exists files,
    getFileList root directory suffix = Some files
    /\ (forall p, In p files <->
          exists dirpath f,
            file_at directory root dirpath f
            /\ PosixPath.endswith f suffix = true
            /\ p = PosixPath.join dirpath f)
    /\ ((forall dirpath f, file_at directory root dirpath f -> slash_free f = true) ->
        forall p, In p files ->
          PosixPath.endswith (PosixPath.basename p) suffix = true)
    /\ StronglySorted str_le (sorted files)
    /\ Permutation files (sorted files)
    /\ (forall files', Permutation files files' -> sorted files' = sorted files).
Proof.
  intros Hm.
  destruct (getFileList_suffix root directory suffix Hm) as (files & E & Hin).
  exists files. split; [exact E|]. split; [exact Hin|].
  split; [|split; [|split]].
  - intros Hnames p Hp. apply Hin in Hp.
    destruct Hp as (dirpath & f & Hat & He & ->).
    now rewrite (basename_join dirpath f (Hnames dirpath f Hat)).
  - apply sorted_is_sorted.
  - apply StringSort.Permuted_sort.
  - intros files'. apply sorted_stable_order.
Qed.

Lemma file_enumerator_suffix_sorted_witness :
  exists files,
    getFileList sample_tree "/in" "nd2" = Some files
    /\ (In "/in/sub/other.nd2" files <->
          exists dirpath f,
            file_at "/in" sample_tree dirpath f
            /\ PosixPath.endswith f "nd2" = true
            /\ "/in/sub/other.nd2" = PosixPath.join dirpath f)
    /\ StronglySorted str_le (sorted files).
Proof.
  destruct (file_enumerator_suffix_sorted sample_tree "/in" "nd2")
    as (files & E & Hin & _ & Hs & _).
  - reflexivity.
  - exists files. split; [exact E|]. split; [apply Hin | exact Hs].
Defined.

(** C8, as stated, fails: [fnmatch] reads a ["?"] in the suffix as a
    wildcard, so a returned file name need not end with the suffix. *)
Lemma wildcard_suffix_not_a_suffix :
  getFileList sample_tree "/in" "n?2"
  = Some ["/in/sample.nd2"; "/in/sub/other.nd2"]
  /\ PosixPath.endswith (PosixPath.basename "/in/sample.nd2") "n?2" = false.
Proof. vm_compute. split; reflexivity. Qed.

(** * Further properties of the script *)

(** ** Invariants and failures, in any world *)

Section Keeps.
Variable I : globals -> Prop.
Variable E : exn -> Prop.
Variable w : world.
Hypothesis I_pad_number :
  forall g n, I g -> I (mkGlobals (thresh_value g) (min_thresh_value g) n).
Hypothesis E_failure : forall ev, faulty w ev = true -> E (Failure ev).

Lemma keeps_ret {A : Type} (a : A) : keeps I E (ret a).
Proof. intros g Hg. exact Hg. Qed.

Lemma keeps_raise {A : Type} (e : exn) : E e -> keeps I E (@raise A e).
Proof. intros He g _. exact He. Qed.

Lemma keeps_call ev : keeps I E (call w ev).
Proof.
  intros g Hg. unfold call. destruct (faulty w ev) eqn:F; simpl; auto.
Qed.

Lemma keeps_bind {A B : Type} (m : M A) (k : A -> M B) :
  keeps I E m -> (forall a, keeps I E (k a)) -> keeps I E (bind m k).
Proof.
  intros Hm Hk g Hg. unfold bind. specialize (Hm g Hg).
  destruct (m g) as [t1 [a g1|e]]; simpl in *; [|exact Hm].
  specialize (Hk a g1 Hm). now destruct (k a g1).
Qed.

Lemma keeps_when b (m : M unit) : keeps I E m -> keeps I E (when b m).
Proof. destruct b; simpl; auto using keeps_ret. Qed.

Lemma keeps_for {A : Type} (l : list A) (body : A -> M unit) :
  (forall a, In a l -> keeps I E (body a)) -> keeps I E (for_ l body).
Proof.
  induction l as [|a l IH]; intros Hb; simpl; [apply keeps_ret|].
  apply keeps_bind.
  - apply Hb. now left.
  - intros _. apply IH. intros a' Ha'. apply Hb. now right.
Qed.

Lemma keeps_get_pad_number : keeps I E get_pad_number.
Proof. intros g Hg. exact Hg. Qed.

Lemma keeps_set_pad_number n : keeps I E (set_pad_number n).
Proof. intros g Hg. now apply I_pad_number. Qed.
End Keeps.

Lemma keeps_wp {A : Type} I E (m : M A) g :
  keeps I E m -> I g ->
  wp m g (fun _ o => match o with Ok _ g' => I g' | Raise e => E e end).
Proof. intros K Hg. exact (K g Hg). Qed.

Lemma threshold_known_pad_number cfg g n :
  threshold_known cfg g ->
  threshold_known cfg (mkGlobals (thresh_value g) (min_thresh_value g) n).
Proof. exact (fun H => H). Qed.

Lemma loop_failure_call cfg w ev :
  faulty w ev = true -> loop_failure cfg w (Failure ev).
Proof. intros F. right. now exists ev. Qed.

(** One step of symbolic execution that remembers which call raised. *)
Ltac wp_faulty :=
  first [ wp_pure
        | lazymatch goal with
          | |- wp (call _ _) _ _ => apply wp_call; intro
          end ];
  cbv beta iota; cbn [fst snd thresh_value min_thresh_value pad_number].

Lemma threshold_block_keeps cfg w imp_laplace :
  keeps (threshold_known cfg) (loop_failure cfg w)
    (threshold_block cfg w imp_laplace).
Proof.
  intros [tv mn pn] Hg. unfold threshold_known in *. cbn in Hg.
  change (wp (threshold_block cfg w imp_laplace) (mkGlobals tv mn pn)
            (fun _ o => match o with
                        | Ok _ g' =>
                            String.eqb (thresh_method cfg) "Fully automatic" = false ->
                            py_eq_zero (thresh_value g') = true
                            \/ min_thresh_value g' <> None
                        | Raise e => loop_failure cfg w e
                        end)).
  unfold threshold_block.
  destruct (String.eqb (thresh_method cfg) "Fully automatic") eqn:Hmode.
  - apply String.eqb_eq in Hmode.
    repeat wp_faulty;
      try (apply loop_failure_call; assumption);
      try (left; split; [reflexivity | exact Hmode]);
      intros; discriminate.
  - specialize (Hg eq_refl).
    repeat wp_faulty;
      try (apply loop_failure_call; assumption);
      try (intros _; right; discriminate);
      try (intros _; left; reflexivity);
      try (intros _; exact Hg);
      destruct Hg as [Hz|Hn]; congruence.
Qed.

(** Walks a computation by its syntax; calls and pure steps keep the
    invariant, anything else is left as a goal. *)
Ltac keeps_step :=
  lazymatch goal with
  | |- keeps _ _ (bind _ _) => apply keeps_bind; [|intro]
  | |- keeps _ _ (ret _) => apply keeps_ret
  | |- keeps _ _ (when _ _) => apply keeps_when
  | |- keeps _ _ get_pad_number => apply keeps_get_pad_number
  | |- keeps _ _ (call _ _) =>
      apply keeps_call; intros; apply loop_failure_call; assumption
  | |- keeps _ _ (threshold_block _ _ _) => apply threshold_block_keeps
  end.

Lemma series_body_keeps cfg w fid file bn n idx s sn :
  n <> 0 ->
  nth_error idx (Z.to_nat s) = Some sn ->
  keeps (threshold_known cfg) (loop_failure cfg w)
    (series_body cfg w fid file bn n idx s).
Proof.
  intros Hn Hs.
  unfold series_body, progress_bar, py_index, open_single_series_with_BF.
  destruct (Z.eqb_spec n 0); [contradiction|]. rewrite Hs.
  repeat keeps_step.
Qed.

(** ** The metadata reader, in any world *)

Lemma set_series_calls (path : string) (k : nat) :
  flat_map (fun i => if i =? 0 then [] else [Reader_setSeries path (i - 1)])
    (py_range (Z.of_nat (S k)))
  = map (Reader_setSeries path) (py_range (Z.of_nat k)).
Proof.
  induction k as [|k IH]; [reflexivity|].
  rewrite py_range_succ, flat_map_app, IH.
  rewrite (py_range_succ k), map_app. f_equal.
  cbn [flat_map app map].
  destruct (Z.eqb_spec (Z.of_nat (S k)) 0) as [E|_]; [exfalso; lia|].
  cbn [app]. do 2 f_equal. lia.
Qed.

Lemma reader_loop_any (w : world) (path : string) (l : list Z) st g :
  wp (for_fold l
        (fun st i =>
           when (negb (i =? 0)) (call w (Reader_setSeries path (i - 1))) ;;
           ret (series_index_step (resolution_count w path) st i)) st) g
    (fun t o =>
       ~ In (Reader_close path) t
       /\ match o with
          | Ok v g' =>
              v = fold_left (series_index_step (resolution_count w path)) l st
              /\ g' = g
              /\ t = flat_map (fun i => if i =? 0 then []
                                        else [Reader_setSeries path (i - 1)]) l
          | Raise e => exists ev, e = Failure ev /\ faulty w ev = true
          end).
Proof.
  revert st. induction l as [|i l IH]; intros st.
  - apply wp_ret. split; [simpl; tauto|]. now repeat split.
  - cbn [for_fold flat_map fold_left]. apply wp_bind, wp_bind.
    destruct (i =? 0); cbn [negb when].
    + apply wp_ret, wp_ret.
      apply (wp_conseq _ _ _ _ (IH _)). intros t o H. exact H.
    + apply wp_call; intros F.
      * split; [simpl; tauto|]. eexists. split; [reflexivity | exact F].
      * apply wp_ret.
        apply (wp_conseq _ _ _ _ (IH _)). intros t o [Hnc Hout]. split.
        -- intros [Hc|Hc]; [discriminate | now apply Hnc].
        -- destruct o as [v g'|e]; [|exact Hout].
           destruct Hout as (-> & -> & ->). now repeat split.
Qed.

Lemma get_series_info_any (w : world) (path : string) (g : globals) :
  let N := series_count w path in
  let r := get_series_info_from_ome_metadata w path g in
  match snd r with
  | Ok v g' =>
      v = series_info N (resolution_count w path)
      /\ g' = g
      /\ fst r = Reader_setId path
                 :: map (Reader_setSeries path) (py_range (N - 1))
                 ++ [Reader_close path]
  | Raise e =>
      (exists ev, e = Failure ev /\ faulty w ev = true)
      /\ ~ In (Reader_close path) (fst r)
  end.
Proof.
  cbv zeta.
  change (wp (get_series_info_from_ome_metadata w path) g
            (fun t o =>
               match o with
               | Ok v g' =>
                   v = series_info (series_count w path) (resolution_count w path)
                   /\ g' = g
                   /\ t = Reader_setId path
                          :: map (Reader_setSeries path)
                               (py_range (series_count w path - 1))
                          ++ [Reader_close path]
               | Raise e =>
                   (exists ev, e = Failure ev /\ faulty w ev = true)
                   /\ ~ In (Reader_close path) t
               end)).
  unfold get_series_info_from_ome_metadata.
  apply wp_bind, wp_call; intros F1.
  { split; [eexists; split; [reflexivity | exact F1] | simpl; tauto]. }
  apply wp_bind.
  apply (wp_conseq _ _ _ _
           (reader_loop_any w path (py_range (series_count w path)) (0, []) g)).
  intros t2 [st g2|e] [Hnc Hout].
  - destruct Hout as (-> & -> & ->).
    apply wp_bind, wp_call; intros F2.
    + split; [eexists; split; [reflexivity | exact F2]|].
      rewrite app_nil_r. intros [Hc|Hc]; [discriminate | now apply Hnc].
    + apply wp_ret. repeat split. cbn [app]. do 2 f_equal.
      destruct (Z.le_gt_cases (series_count w path) 0) as [Hn|Hn].
      * unfold py_range.
        replace (Z.to_nat (series_count w path)) with O by lia.
        now replace (Z.to_nat (series_count w path - 1)) with O by lia.
      * replace (series_count w path)
          with (Z.of_nat (S (Z.to_nat (series_count w path - 1)))) at 1 by lia.
        rewrite set_series_calls. do 2 f_equal. lia.
  - split; [exact Hout|].
    intros [Hc|Hc]; [discriminate | now apply Hnc].
Qed.

(** The reader of [get_series_info_from_ome_metadata] in any world: when
    the function returns, the globals are untouched, the value is the
    table of [series_info], and the reader was given the file, moved to
    each series but the last in turn, and closed; when a call raises, the
    function raises that failure and the reader is not closed. *)
Theorem series_inspector_reader_protocol (w : world) (path : string) (g : globals) :
  let N := series_count w path in
  let r := get_series_info_from_ome_metadata w path g in
  match snd r with
  | Ok v g' =>
      v = series_info N (resolution_count w path)
      /\ g' = g
      /\ fst r = Reader_setId path
                 :: map (Reader_setSeries path) (py_range (N - 1))
                 ++ [Reader_close path]
  | Raise e =>
      (exists ev, e = Failure ev /\ faulty w ev = true)
      /\ ~ In (Reader_close path) (fst r)
  end.
Proof. exact (get_series_info_any w path g). Qed.

(** ** How the script can fail *)

Lemma file_body_keeps cfg w n_files fid file :
  n_files <> 0 ->
  keeps (threshold_known cfg) (loop_failure cfg w)
    (file_body cfg w n_files (fid, file)).
Proof.
  intros Hn g Hg.
  change (wp (file_body cfg w n_files (fid, file)) g
            (fun _ o => match o with
                        | Ok _ g' => threshold_known cfg g'
                        | Raise e => loop_failure cfg w e
                        end)).
  unfold file_body, progress_bar.
  destruct (Z.eqb_spec n_files 0); [contradiction|].
  apply wp_bind, wp_call; intros F; [now apply loop_failure_call|].
  apply wp_bind.
  assert (R := get_series_info_any w file g). cbv zeta in R.
  apply (wp_of_eq _ _ _ _ _
           (surjective_pairing (get_series_info_from_ome_metadata w file g))).
  destruct (snd (get_series_info_from_ome_metadata w file g)) as [v g'|e].
  - destruct R as (-> & -> & _). rewrite series_info_table.
    apply keeps_wp; [|exact Hg].
    apply keeps_bind; [apply keeps_get_pad_number|]. intros pn.
    apply keeps_bind.
    + apply keeps_when, keeps_set_pad_number.
      intros g1 k. apply threshold_known_pad_number.
    + intros _. apply keeps_for. intros s Hs. apply py_range_In in Hs.
      apply (series_body_keeps cfg w fid file _ _ _ s
               (offset (resolution_count w file) s)); [lia|].
      now rewrite nth_error_map, py_range_nth.
  - destruct R as [(ev & -> & F') _]. now apply loop_failure_call.
Qed.

(** In any world, however the calls fail, the script ends in one of four
    ways: it completes; the file pattern does not compile ([re.error]); a
    call to the platform raised; or, in Fully automatic mode only, line 312
    reads the unbound [min_thresh_value].  It never divides by zero in
    [progress_bar] and never indexes [series_index] out of range. *)
Theorem run_failures cfg w e :
  snd (run cfg w) = Raise e ->
  (e = ReError
   /\ getFileList (fs w) (src_dir cfg) (filename_filter cfg) = None)
  \/ (e = NameError "min_thresh_value"
      /\ thresh_method cfg = "Fully automatic")
  \/ (exists ev, e = Failure ev /\ faulty w ev = true).
Proof.
  assert (W : wp (main cfg w) unbound
                (fun _ o =>
                   forall e, o = Raise e ->
                     (e = ReError
                      /\ getFileList (fs w) (src_dir cfg) (filename_filter cfg) = None)
                     \/ loop_failure cfg w e)).
  { unfold main, timed_log.
    apply wp_bind, wp_call; intros F1.
    { intros e' [= <-]. right. now apply loop_failure_call. }
    apply wp_bind, wp_call; intros F2.
    { intros e' [= <-]. right. now apply loop_failure_call. }
    apply wp_bind.
    destruct (getFileList (fs w) (src_dir cfg) (filename_filter cfg))
      as [files|] eqn:Hfiles.
    2:{ apply wp_raise. intros e' [= <-]. now left. }
    apply wp_ret, wp_bind, wp_set_pad_number, wp_bind, wp_set_thresh_value.
    apply wp_bind.
    apply (wp_conseq _ _
             (fun _ o => match o with
                         | Ok _ g' => threshold_known cfg g'
                         | Raise e => loop_failure cfg w e
                         end)).
    - apply keeps_wp; [|intros _; now left].
      destruct files as [|f fs']; [apply keeps_ret|].
      apply keeps_for. intros [fid file] _.
      apply file_body_keeps. simpl List.length. lia.
    - intros t [[] g1|e1] Hpost.
      + apply wp_call; intros F3.
        * intros e' [= <-]. right. now apply loop_failure_call.
        * intros e' [=].
      + intros e' [= <-]. now right. }
  intros Hrun. destruct (W e Hrun) as [H|[H|H]]; auto.
Qed.

Lemma run_failures_witness :
  (NameError "min_thresh_value" = ReError
   /\ getFileList sample_tree "/in" "nd2" = None)
  \/ (NameError "min_thresh_value" = NameError "min_thresh_value"
      /\ "Fully automatic" = "Fully automatic")
  \/ (exists ev, NameError "min_thresh_value" = Failure ev /\ false = true).
Proof.
  apply (run_failures (sample_config "Fully automatic" false)
           (sample_world (1.5%float, 7%float))
           (NameError "min_thresh_value")).
  vm_compute. reflexivity.
Defined.

(** ** The closing log line *)

Lemma emits_wp {A : Type} (P : event -> Prop) (m : M A) g :
  emits_only P m -> wp m g (fun t _ => Forall P t).
Proof. intros Hm. exact (Hm g). Qed.

Lemma loops_emit_loop_calls cfg w n_files (items : list (Z * string)) :
  emits_only (fun ev => is_loop_call ev = true)
    (for_ items (file_body cfg w n_files)).
Proof.
  apply eo_for. intros [fid file].
  unfold file_body, get_series_info_from_ome_metadata, series_body,
    progress_bar, py_index, open_single_series_with_BF, threshold_block.
  emits; reflexivity.
Qed.

(** In any world, the script logs "Script finished !" exactly when it
    completes, and then as its last call; a run that raised never
    reports that it finished. *)
Theorem finished_logged_iff_completed cfg w :
  let tr := fst (run cfg w) in
  match snd (run cfg w) with
  | Ok _ _ =>
      exists before,
        tr = before ++ [Timed_log "Script finished !"]
        /\ ~ In (Timed_log "Script finished !") before
  | Raise _ => ~ In (Timed_log "Script finished !") tr
  end.
Proof.
  cbv zeta. unfold run.
  change (wp (main cfg w) unbound
            (fun t o =>
               match o with
               | Ok _ _ =>
                   exists before,
                     t = before ++ [Timed_log "Script finished !"]
                     /\ ~ In (Timed_log "Script finished !") before
               | Raise _ => ~ In (Timed_log "Script finished !") t
               end)).
  unfold main, timed_log.
  apply wp_bind, wp_call; intros F1; [simpl; tauto|].
  apply wp_bind, wp_call; intros F2; [simpl; intuition discriminate|].
  apply wp_bind.
  destruct (getFileList (fs w) (src_dir cfg) (filename_filter cfg)) as [files|].
  2:{ apply wp_raise. simpl. intuition discriminate. }
  apply wp_ret, wp_bind, wp_set_pad_number, wp_bind, wp_set_thresh_value.
  apply wp_bind.
  apply (wp_conseq _ _ (fun t _ => Forall (fun ev => is_loop_call ev = true) t)).
  - destruct files as [|f fs']; [apply wp_ret; constructor|].
    apply emits_wp, loops_emit_loop_calls.
  - intros t o Ht.
    assert (Hnot : ~ In (Timed_log "Script finished !")
                     (IJ_log "\Clear" :: Timed_log "Script starting" :: t)).
    { intros [Hc|[Hc|Hc]]; try discriminate.
      rewrite Forall_forall in Ht. apply Ht in Hc. discriminate. }
    destruct o as [[] g1|e1]; [|exact Hnot].
    apply wp_call; intros F3.
    + cbn [app]. rewrite app_nil_r. exact Hnot.
    + exists (IJ_log "\Clear" :: Timed_log "Script starting" :: t).
      split; [reflexivity | exact Hnot].
Qed.

(** ** Runs that complete: what each series leaves behind *)

Lemma series_body_manual_healthy cfg w fid file bn n idx s sn g :
  healthy w ->
  String.eqb (thresh_method cfg) "Fully automatic" = false ->
  n <> 0 ->
  nth_error idx (Z.to_nat s) = Some sn ->
  manual_state g ->
  wp (series_body cfg w fid file bn n idx s) g
    (fun t o =>
       exists g', o = Ok tt g' /\ manual_state g'
       /\ saved t = [out_ratio cfg file bn]
       /\ closed t = series_closes (fid, s)
       /\ allocated t = series_allocations (fid, s)).
Proof.
  intros H Hmode Hn Hs Hg. destruct g as [tv mn pn].
  unfold manual_state in *. cbn [thresh_value min_thresh_value] in Hg.
  unfold series_body, progress_bar, py_index, open_single_series_with_BF,
    threshold_block.
  destruct (Z.eqb_spec n 0); [contradiction|].
  rewrite Hs, Hmode. cbn [fst snd thresh_value min_thresh_value].
  repeat wp_healthy H;
    try (exfalso; destruct Hg as [Hz|Hnone]; congruence);
    eexists; (split; [reflexivity|]);
    (split; [cbn; first [now left | right; discriminate | exact Hg]|]);
    repeat split.
Qed.

Section Collect.
Variable B : Type.
Variable project : event -> list B.
Variable cfg : config.
Variable w : world.
Variable per_series : Z -> string -> Z -> list B.
Hypothesis Hw : healthy w.
Hypothesis quiet : forall ev, is_overhead ev = true -> project ev = [].
Hypothesis per_series_ok :
  forall fid file bn n idx s sn g,
    n <> 0 -> nth_error idx (Z.to_nat s) = Some sn -> manual_state g ->
    wp (series_body cfg w fid file bn n idx s) g
      (fun t o => exists g', o = Ok tt g' /\ manual_state g'
                             /\ flat_map project t = per_series fid file s).

Lemma for_collect {A : Type} (l : list A) (body : A -> M unit)
    (per_item : A -> list B) :
  (forall a g, In a l -> manual_state g ->
     wp (body a) g
       (fun t o => exists g', o = Ok tt g' /\ manual_state g'
                              /\ flat_map project t = per_item a)) ->
  forall g, manual_state g ->
    wp (for_ l body) g
      (fun t o => exists g', o = Ok tt g' /\ manual_state g'
                             /\ flat_map project t = flat_map per_item l).
Proof.
  induction l as [|a l IH]; intros Hb g Hg.
  - apply wp_ret. now exists g.
  - cbn [for_ flat_map]. apply wp_bind.
    apply (wp_conseq _ _ _ _ (Hb a g (or_introl eq_refl) Hg)).
    intros t o (g1 & -> & Hg1 & Ht).
    apply (wp_conseq _ _ _ _
             (IH (fun a' g' Hin => Hb a' g' (or_intror Hin)) g1 Hg1)).
    intros t2 o2 (g2 & -> & Hg2 & Ht2).
    exists g2. repeat split; auto. now rewrite flat_map_app, Ht, Ht2.
Qed.

Lemma file_body_collect n_files fid file g :
  n_files <> 0 ->
  manual_state g ->
  wp (file_body cfg w n_files (fid, file)) g
    (fun t o => exists g', o = Ok tt g' /\ manual_state g'
                           /\ flat_map project t
                              = flat_map (per_series fid file)
                                  (py_range (series_count w file))).
Proof.
  intros Hn Hg. unfold file_body, progress_bar.
  destruct (Z.eqb_spec n_files 0); [contradiction|].
  apply wp_bind, (wp_call_healthy _ _ _ _ Hw). cbv beta iota.
  apply wp_bind.
  destruct (get_series_info_healthy w file g Hw) as (tr & E & Fr).
  apply (wp_of_eq _ _ _ _ _ E). rewrite series_info_table.
  apply wp_bind, wp_get_pad_number. apply wp_bind.
  assert (Hquiet : flat_map project tr = []).
  { clear E. induction Fr as [|ev tr Hev _ IH]; [reflexivity|].
    cbn [flat_map]. rewrite IH, quiet; [reflexivity|]. now destruct ev. }
  assert (Hloop : forall g1, manual_state g1 ->
            wp (for_ (py_range (series_count w file))
                  (series_body cfg w fid file
                     (fst (PosixPath.splitext (PosixPath.basename file)))
                     (series_count w file)
                     (map (offset (resolution_count w file))
                        (py_range (series_count w file))))) g1
              (fun t2 o2 =>
                 exists g', o2 = Ok tt g' /\ manual_state g'
                   /\ flat_map project
                        (Progress_log 1 ("Processing: " ++ py_str_int fid)
                           (30 * (fid + 1) / n_files)
                           (30 - 30 * (fid + 1) / n_files) (fid + 1) n_files
                         :: tr ++ t2)
                      = flat_map (per_series fid file)
                          (py_range (series_count w file)))).
  { intros g1 Hg1.
    assert (Hb : forall s g2, In s (py_range (series_count w file)) ->
              manual_state g2 ->
              wp (series_body cfg w fid file
                    (fst (PosixPath.splitext (PosixPath.basename file)))
                    (series_count w file)
                    (map (offset (resolution_count w file))
                       (py_range (series_count w file))) s) g2
                (fun t o => exists g', o = Ok tt g' /\ manual_state g'
                              /\ flat_map project t = per_series fid file s)).
    { intros s g2 Hin Hg2. apply py_range_In in Hin.
      apply (per_series_ok fid file _ (series_count w file) _ s
               (offset (resolution_count w file) s) g2);
        [lia | now rewrite nth_error_map, py_range_nth | exact Hg2]. }
    apply (wp_conseq _ _ _ _
             (for_collect (py_range (series_count w file)) _
                (per_series fid file) Hb g1 Hg1)).
    intros t2 o2 (g' & -> & Hg' & Ht2). exists g'. repeat split; auto.
    cbn [flat_map]. rewrite quiet by reflexivity.
    now rewrite flat_map_app, Hquiet, Ht2. }
  destruct (pad_number g =? 0); unfold when.
  - apply wp_set_pad_number. cbv beta iota. cbn [app].
    apply Hloop. exact Hg.
  - apply wp_ret. cbv beta iota. cbn [app].
    apply Hloop. exact Hg.
Qed.

Lemma run_collect files :
  getFileList (fs w) (src_dir cfg) (filename_filter cfg) = Some files ->
  exists tr g',
    run cfg w = (tr, Ok tt g')
    /\ flat_map project tr
       = flat_map (fun item : Z * string =>
                     flat_map (per_series (fst item) (snd item))
                       (py_range (series_count w (snd item))))
           (enumerate (sorted files)).
Proof.
  intros Hfiles.
  assert (W : wp (main cfg w) unbound
                (fun t o =>
                   exists g', o = Ok tt g'
                     /\ flat_map project t
                        = flat_map (fun item : Z * string =>
                                      flat_map (per_series (fst item) (snd item))
                                        (py_range (series_count w (snd item))))
                            (enumerate (sorted files)))).
  { unfold main, timed_log. rewrite Hfiles.
    do 11 wp_healthy Hw. cbn [unbound min_thresh_value app].
    destruct files as [|f fs'].
    - do 2 wp_healthy Hw. eexists. split; [reflexivity|].
      cbn. now rewrite !quiet by reflexivity.
    - set (files := f :: fs').
      assert (Hb : forall (item : Z * string) g,
                In item (enumerate (sorted files)) -> manual_state g ->
                wp (file_body cfg w (Z.of_nat (List.length files)) item) g
                  (fun t o => exists g', o = Ok tt g' /\ manual_state g'
                     /\ flat_map project t
                        = flat_map (per_series (fst item) (snd item))
                            (py_range (series_count w (snd item))))).
      { intros [fid file] g _ Hg. apply file_body_collect;
          [unfold files; simpl List.length; lia | exact Hg]. }
      apply (wp_conseq _ _ _ _
               (for_collect (enumerate (sorted files)) _ _ Hb
                  (mkGlobals (PyInt 0) None 0) (or_introl eq_refl))).
      intros t o (g1 & -> & _ & Ht).
      wp_healthy Hw. eexists. split; [reflexivity|].
      cbn [flat_map]. rewrite !quiet by reflexivity. cbn [app].
      rewrite flat_map_app, Ht. cbn [flat_map].
      rewrite quiet by reflexivity. now rewrite !app_nil_r. }
  unfold wp in W. fold (run cfg w) in W. destruct W as (g' & Hout & Ht).
  exists (fst (run cfg w)), g'. split; [|exact Ht].
  now rewrite <- Hout, <- run_pair.
Qed.
End Collect.


Lemma flat_map_flat_map {A B C : Type} (f : B -> list C) (g : A -> list B)
    (l : list A) :
  flat_map f (flat_map g l) = flat_map (fun a => flat_map f (g a)) l.
Proof.
  induction l as [|a l IH]; [reflexivity|].
  cbn [flat_map]. now rewrite flat_map_app, IH.
Qed.

Lemma flat_map_map {A B C : Type} (f : B -> list C) (g : A -> B) (l : list A) :
  flat_map f (map g l) = flat_map (fun a => f (g a)) l.
Proof. induction l; simpl; congruence. Qed.




(** In a manual mode and a world where no call raises, the images the
    run creates and closes are, series by series, the seven of
    [series_allocations] and the six of [series_closes]: by the end every
    image is closed except one per series, the intermediate quotient of
    line 329, which is never closed. *)
Theorem manual_run_leaves_quotients_open cfg w files :
  healthy w ->
  String.eqb (thresh_method cfg) "Fully automatic" = false ->
  getFileList (fs w) (src_dir cfg) (filename_filter cfg) = Some files ->
  let tr := fst (run cfg w) in
  allocated tr = flat_map series_allocations (work_items w (sorted files))
  /\ closed tr = flat_map series_closes (work_items w (sorted files))
  /\ (forall i, In i (allocated tr) ->
        img_role i <> ImpQuotient -> In i (closed tr))
  /\ (forall i, In i (closed tr) -> img_role i <> ImpQuotient)
  /\ (forall it, In it (work_items w (sorted files)) ->
        In (mkImg (fst it) (snd it) ImpQuotient) (allocated tr)).
Proof.
  intros H Hmode Hfiles tr.
  assert (Ha : allocated tr
               = flat_map series_allocations (work_items w (sorted files))).
  { destruct (run_collect img
                (fun ev => match ev with
                           | BF_openImagePlus _ _ imp => [imp]
                           | Duplicator_run _ _ dup => [dup]
                           | IJ_getImage imp => [imp]
                           | ImageCalculator_run _ _ _ result => [result]
                           | _ => []
                           end)
                cfg w
                (fun fid _ s => series_allocations (fid, s))
                H ltac:(intros ev Hev; now destruct ev)
                ltac:(intros fid file bn n idx s sn g Hn Hs Hg;
                      apply (wp_conseq _ _ _ _
                               (series_body_manual_healthy cfg w fid file bn n idx
                                  s sn g H Hmode Hn Hs Hg));
                      intros t o (g' & Ho & Hg' & _ & _ & Hal);
                      exists g'; split; [exact Ho | split; [exact Hg' | exact Hal]])
                files Hfiles)
      as (tr' & g' & Hrun & Ht).
    assert (tr' = tr) by (unfold tr; now rewrite Hrun). subst tr'.
    unfold allocated. rewrite Ht. unfold work_items.
    rewrite flat_map_flat_map. apply flat_map_ext. intros item.
    now rewrite flat_map_map. }
  assert (Hc : closed tr = flat_map series_closes (work_items w (sorted files))).
  { destruct (run_collect img
                (fun ev => match ev with Close imp => [imp] | _ => [] end)
                cfg w
                (fun fid _ s => series_closes (fid, s))
                H ltac:(intros ev Hev; now destruct ev)
                ltac:(intros fid file bn n idx s sn g Hn Hs Hg;
                      apply (wp_conseq _ _ _ _
                               (series_body_manual_healthy cfg w fid file bn n idx
                                  s sn g H Hmode Hn Hs Hg));
                      intros t o (g' & Ho & Hg' & _ & Hcl & _);
                      exists g'; split; [exact Ho | split; [exact Hg' | exact Hcl]])
                files Hfiles)
      as (tr' & g' & Hrun & Ht).
    assert (tr' = tr) by (unfold tr; now rewrite Hrun). subst tr'.
    unfold closed. rewrite Ht. unfold work_items.
    rewrite flat_map_flat_map. apply flat_map_ext. intros item.
    now rewrite flat_map_map. }
  split; [exact Ha|]. split; [exact Hc|]. rewrite Ha, Hc.
  split; [|split].
  - intros i Hi Hrole. apply in_flat_map in Hi. destruct Hi as (it & Hit & Hi).
    apply in_flat_map. exists it. split; [exact Hit|].
    unfold series_allocations, series_closes in *. simpl in *.
    intuition (subst; simpl in *; try contradiction; auto).
  - intros i Hi. apply in_flat_map in Hi. destruct Hi as (it & _ & Hi).
    unfold series_closes in Hi. simpl in Hi.
    intuition (subst; simpl; discriminate).
  - intros it Hit. apply in_flat_map. exists it. split; [exact Hit|].
    unfold series_allocations. simpl. tauto.
Qed.

Lemma manual_run_leaves_quotients_open_witness :
  let tr := fst (run (sample_config "Manual once and apply to all" true)
                   (sample_world (1.5%float, 7%float))) in
  List.length (allocated tr) = 21%nat
  /\ List.length (closed tr) = 18%nat
  /\ (forall i, In i (closed tr) -> img_role i <> ImpQuotient).
Proof.
  destruct (manual_run_leaves_quotients_open
              (sample_config "Manual once and apply to all" true)
              (sample_world (1.5%float, 7%float))
              ["/in/sample.nd2"; "/in/sub/other.nd2"])
    as (Ha & Hc & _ & Hq & _).
  - intros ev. reflexivity.
  - reflexivity.
  - vm_compute. reflexivity.
  - cbv zeta. rewrite Ha, Hc. split; [reflexivity|]. split; [reflexivity|].
    rewrite <- Hc. exact Hq.
Defined.

(** ** Manual once: where the dialog opens *)

Lemma manual_once_steps_prompts w tv mn items :
  py_eq_zero tv = true ->
  obs_prompts (fst (threshold_steps "Manual once and apply to all" w (tv, mn) items))
  = map laplace_of (asked_manual_once w items).
Proof.
  revert tv mn. induction items as [|it rest IH]; intros tv mn Hz; [reflexivity|].
  cbn [threshold_steps asked_manual_once].
  rewrite (manual_once_unset_step w tv mn it Hz).
  destruct (py_eq_zero (PyFloat (snd (user_thresholds w (laplace_of it))))) eqn:Hz'.
  - specialize (IH _ (Some (PyFloat (fst (user_thresholds w (laplace_of it))))) Hz').
    destruct (threshold_steps _ w _ rest) as [os r].
    cbn [fst] in *. unfold obs_prompts in *. rewrite flat_map_app, IH.
    reflexivity.
  - rewrite (manual_once_set w _ _ rest Hz'). cbn [fst].
    unfold obs_prompts. rewrite flat_map_app. cbn [flat_map app map].
    f_equal. clear. induction rest; simpl; auto.
Qed.

(** Manual once and apply to all, no call raising: the dialog opens on
    every series up to and including the first one at which the operator
    leaves a maximum threshold other than 0, and on no series after it. *)
Theorem manual_once_prompts_until_nonzero cfg w files :
  healthy w ->
  thresh_method cfg = "Manual once and apply to all" ->
  getFileList (fs w) (src_dir cfg) (filename_filter cfg) = Some files ->
  prompts (fst (run cfg w))
  = map laplace_of (asked_manual_once w (work_items w (sorted files))).
Proof.
  intros H Hmode Hfiles.
  destruct (run_follows cfg w files H Hfiles) as [Hobs _].
  rewrite Hmode in Hobs.
  rewrite prompts_observations, Hobs.
  now apply manual_once_steps_prompts.
Qed.

Lemma manual_once_prompts_until_nonzero_witness :
  prompts (fst (run (sample_config "Manual once and apply to all" false)
                    (mkWorld sample_tree (fun _ => false)
                       (fun path => if String.eqb path "/in/sample.nd2" then 2 else 1)
                       (fun _ _ => 1)
                       (fun imp => if img_series imp =? 0
                                   then ((-3)%float, 0%float)
                                   else (1.5%float, 7%float))
                       (fun _ => false) (fun _ => false))))
  = [laplace_of (0, 0); laplace_of (0, 1)].
Proof.
  rewrite (manual_once_prompts_until_nonzero _ _
             ["/in/sample.nd2"; "/in/sub/other.nd2"]).
  - vm_compute. reflexivity.
  - intros ev. reflexivity.
  - reflexivity.
  - vm_compute. reflexivity.
Defined.

(** ** Fully automatic: when the run completes *)



(** ** Nothing to process, and a pattern that does not compile *)

(** No call raising and no file found (no match, or [src_dir] is not a
    directory): the script clears the log, logs its start and its end, and
    does nothing else; it reads no metadata and opens no image. *)
Theorem empty_run_only_logs cfg w :
  healthy w ->
  getFileList (fs w) (src_dir cfg) (filename_filter cfg) = Some [] ->
  run cfg w
  = ([IJ_log "\Clear"; Timed_log "Script starting"; Timed_log "Script finished !"],
     Ok tt (mkGlobals (PyInt 0) None 0)).
Proof.
  intros H Hfiles. unfold run, main, timed_log. rewrite Hfiles.
  rewrite !bind_call_healthy by assumption.
  unfold bind, ret, set_pad_number, set_thresh_value. cbn.
  now rewrite (call_healthy w _ _ H).
Qed.

Lemma empty_run_only_logs_witness :
  run (sample_config "Fully automatic" false)
      (mkWorld (File "in") (fun _ => false) (fun _ => 1) (fun _ _ => 1)
         (fun _ => (1.5%float, 7%float)) (fun _ => false) (fun _ => false))
  = ([IJ_log "\Clear"; Timed_log "Script starting"; Timed_log "Script finished !"],
     Ok tt (mkGlobals (PyInt 0) None 0)).
Proof.
  apply empty_run_only_logs.
  - intros ev. reflexivity.
  - reflexivity.
Defined.

(** No call raising, [src_dir] a directory (even an empty one) and a
    filter whose pattern holds a character set that does not compile: the
    script raises [re.error] right after its first two log lines, before
    any file is looked at, whatever the directory holds. *)
Theorem bad_pattern_stops_the_script cfg w d entries :
  healthy w ->
  fs w = Dir d entries ->
  forallb Fnmatch.set_ok (Fnmatch.translate ("*" ++ filename_filter cfg)) = false ->
  getFileList (fs w) (src_dir cfg) (filename_filter cfg) = None
  /\ run cfg w = ([IJ_log "\Clear"; Timed_log "Script starting"], Raise ReError).
Proof.
  intros H Hfs Hbad.
  assert (Hnone : getFileList (fs w) (src_dir cfg) (filename_filter cfg) = None).
  { rewrite Hfs. unfold getFileList. rewrite os_walk_Dir.
    cbn [getFileList_loop]. unfold Fnmatch.filter. now rewrite Hbad. }
  split; [exact Hnone|].
  unfold run, main, timed_log. rewrite Hnone.
  rewrite !bind_call_healthy by assumption. reflexivity.
Qed.

Lemma bad_pattern_stops_the_script_witness :
  getFileList sample_tree "/in" "[z-a]" = None
  /\ run (mkConfig "/in" "/out" "[z-a]" 1 false "Fully manual")
         (sample_world (1.5%float, 7%float))
     = ([IJ_log "\Clear"; Timed_log "Script starting"], Raise ReError).
Proof.
  apply (bad_pattern_stops_the_script
           (mkConfig "/in" "/out" "[z-a]" 1 false "Fully manual")
           (sample_world (1.5%float, 7%float)) "in"
           [File "sample.nd2"; Dir "sub" [File "other.nd2"; File "notes.txt"]]).
  - intros ev. reflexivity.
  - reflexivity.
  - vm_compute. reflexivity.
Defined.

(** ** Every call of a run, in any world *)

Lemma eo_for_In (P : event -> Prop) {A : Type} (l : list A) (body : A -> M unit) :
  (forall a, In a l -> emits_only P (body a)) -> emits_only P (for_ l body).
Proof.
  induction l as [|a l IH]; intros Hb; cbn [for_]; [apply eo_ret|].
  apply eo_bind.
  - apply Hb. now left.
  - intros _. apply IH. intros a' Ha'. apply Hb. now right.
Qed.

Lemma eo_bind_raise (P : event -> Prop) {A B : Type} (e : exn) (k : A -> M B) :
  emits_only P (bind (raise e) k).
Proof. intros g. constructor. Qed.

Lemma eo_bind_ret (P : event -> Prop) {A B : Type} (a : A) (k : A -> M B) :
  emits_only P (k a) -> emits_only P (bind (ret a) k).
Proof.
  intros Hk g. specialize (Hk g). unfold bind, ret.
  now destruct (k a g).
Qed.

Lemma enumerate_In_bound {A : Type} (l : list A) (i : Z) (a : A) :
  In (i, a) (enumerate l) -> 0 <= i < Z.of_nat (List.length l) /\ In a l.
Proof.
  unfold enumerate. intros Hin. split.
  - apply in_combine_l in Hin. apply in_map_iff in Hin.
    destruct Hin as (k & <- & Hk). apply in_seq in Hk. lia.
  - now apply in_combine_r in Hin.
Qed.

Lemma sorted_In (files : list string) (file : string) :
  In file (sorted files) <-> In file files.
Proof.
  split; apply Permutation_in;
    [apply Permutation_sym|]; apply StringSort.Permuted_sort.
Qed.

Lemma sorted_length (files : list string) :
  List.length (sorted files) = List.length files.
Proof. apply Permutation_length, Permutation_sym, StringSort.Permuted_sort. Qed.

Lemma series_body_calls_sound cfg w files fid file bn n idx s :
  In file files ->
  0 <= s < n ->
  emits_only (call_sound cfg files) (series_body cfg w fid file bn n idx s).
Proof.
  intros Hfile Hs.
  unfold series_body, progress_bar, py_index, open_single_series_with_BF,
    threshold_block, when.
  destruct (do_stackreg cfg) eqn:Hreg;
    emits; cbn [call_sound img_file img_series img_role];
    try exact I; try (intros; discriminate);
    try (repeat split; (lia || reflexivity));
    try (intros _; exact Hreg);
    try (left; repeat split; reflexivity);
    try (right; repeat split; reflexivity);
    (split; [reflexivity|]; split; [reflexivity|];
     exists file; split; [exact Hfile | reflexivity]).
Qed.

Lemma main_calls_sound cfg w :
  emits_only
    (call_sound cfg (listed (fs w) (src_dir cfg) (filename_filter cfg)))
    (main cfg w).
Proof.
  unfold main, timed_log, listed.
  apply eo_bind; [apply eo_call; exact I|]. intros _.
  apply eo_bind; [apply eo_call; exact I|]. intros _.
  destruct (getFileList (fs w) (src_dir cfg) (filename_filter cfg)) as [files|];
    [|apply eo_bind_raise].
  apply eo_bind_ret.
  apply eo_bind; [apply eo_set_pad_number|]. intros _.
  apply eo_bind; [apply eo_set_thresh_value|]. intros _.
  apply eo_bind; [|intros _; apply eo_call; exact I].
  destruct files as [|f fs']; [apply eo_ret|].
  set (files := f :: fs').
  apply eo_for_In. intros [fid file] Hin.
  apply enumerate_In_bound in Hin. destruct Hin as [Hfid Hfile].
  rewrite sorted_length in Hfid. apply (proj1 (sorted_In _ _)) in Hfile.
  unfold file_body, progress_bar, get_series_info_from_ome_metadata.
  destruct (Z.eqb_spec (Z.of_nat (List.length files)) 0);
    [unfold files in *; simpl List.length in *; lia|].
  apply eo_bind;
    [apply eo_call; cbn [call_sound]; repeat split; (lia || reflexivity)|].
  intros _. apply eo_bind; [emits; exact I|]. intros [cnt idx].
  apply eo_bind; [apply eo_get_pad_number|]. intros pn.
  apply eo_bind; [apply eo_when, eo_set_pad_number|]. intros _.
  apply eo_for_In. intros s Hs. apply py_range_In in Hs.
  apply series_body_calls_sound; [exact Hfile | exact Hs].
Qed.

Lemma run_calls_sound cfg w ev :
  In ev (fst (run cfg w)) ->
  call_sound cfg (listed (fs w) (src_dir cfg) (filename_filter cfg)) ev.
Proof.
  intros Hin. assert (F := main_calls_sound cfg w unbound).
  rewrite Forall_forall in F. now apply F.
Qed.

(** In any world, every progress line the script logs shows a step
    between 1 and the total, a bar of 0 to 30 marks padded to 30, and a
    full bar exactly at the last step; [progress_bar] is never called with
    a total of 0. *)
Theorem progress_lines_in_range cfg w line_number prefix x rest progress total :
  In (Progress_log line_number prefix x rest progress total) (fst (run cfg w)) ->
  1 <= progress <= total
  /\ 0 <= x <= 30
  /\ rest = 30 - x
  /\ (x = 30 <-> progress = total).
Proof.
  intros Hin. apply run_calls_sound in Hin. cbn [call_sound] in Hin.
  destruct Hin as (Hp & -> & ->).
  assert (Hlo : 0 <= 30 * progress / total) by (apply Z.div_pos; lia).
  assert (Hhi : 30 * progress / total <= 30)
    by (apply Z.div_le_upper_bound; lia).
  repeat split; try lia.
  - intros Hx. assert (Hm := Z.mul_div_le (30 * progress) total ltac:(lia)).
    rewrite Hx in Hm. lia.
  - intros ->. apply Z.div_mul. lia.
Qed.

Lemma progress_lines_in_range_witness :
  1 <= 1 <= 2 /\ 0 <= 15 <= 30 /\ 15 = 30 - 15 /\ (15 = 30 <-> 1 = 2).
Proof.
  apply (progress_lines_in_range (sample_config "Fully manual" false)
           (sample_world (1.5%float, 7%float)) 2 "Opening series : ").
  apply (nth_error_In _ 6). vm_compute. reflexivity.
Defined.

(** In any world, a run with alignment switched off never calls the
    "StackReg" registration plugin. *)
Theorem no_registration_when_disabled cfg w :
  do_stackreg cfg = false ->
  forall imp options, ~ In (IJ_run imp "StackReg" options) (fst (run cfg w)).
Proof.
  intros Hoff imp options Hin. apply run_calls_sound in Hin.
  cbn [call_sound] in Hin. specialize (Hin eq_refl). congruence.
Qed.

Lemma no_registration_when_disabled_witness :
  ~ In (IJ_run (mkImg 0 0 Imp) "StackReg" "transformation=[Affine]")
      (fst (run (sample_config "Fully manual" false)
                (sample_world (1.5%float, 7%float)))).
Proof.
  apply (no_registration_when_disabled (sample_config "Fully manual" false)).
  reflexivity.
Defined.



(** ** Output names *)

Lemma slash_free_append (a b : string) :
  slash_free (a ++ b) = slash_free a && slash_free b.
Proof.
  unfold slash_free. induction a as [|c a IH]; [reflexivity|].
  cbn [String.append PosixPath.existsb_char].
  destruct (Ascii.eqb c PosixPath.sep); [reflexivity|]. exact IH.
Qed.

Lemma rfind_from_last_slash (s : string) :
  forall i last,
    let r := PosixPath.rfind_from PosixPath.sep s i last in
    (r = last /\ slash_free s = true)
    \/ (i <= r < i + Z.of_nat (String.length s)
        /\ slash_free (PosixPath.drop (Z.to_nat (r - i + 1)) s) = true).
Proof.
  induction s as [|a s IH]; intros i last; cbv zeta.
  - left. now split.
  - cbn [PosixPath.rfind_from String.length].
    specialize (IH (i + 1) (if Ascii.eqb a PosixPath.sep then i else last)).
    cbv zeta in IH. destruct IH as [[Hr Hs]|[Hr Hs]].
    + rewrite Hr. destruct (Ascii.eqb a PosixPath.sep) eqn:Ha.
      * right. split; [lia|].
        replace (Z.to_nat (i - i + 1)) with 1%nat by lia. exact Hs.
      * left. split; [reflexivity|].
        unfold slash_free in *. cbn [PosixPath.existsb_char]. now rewrite Ha.
    + right. split; [lia|].
      replace (Z.to_nat (PosixPath.rfind_from PosixPath.sep s (i + 1)
                           (if Ascii.eqb a PosixPath.sep then i else last)
                         - i + 1))
        with (S (Z.to_nat (PosixPath.rfind_from PosixPath.sep s (i + 1)
                             (if Ascii.eqb a PosixPath.sep then i else last)
                           - (i + 1) + 1))) by lia.
      exact Hs.
Qed.

Lemma basename_slash_free (p : string) :
  slash_free (PosixPath.basename p) = true.
Proof.
  unfold PosixPath.basename, PosixPath.rfind, PosixPath.slice_from.
  destruct (rfind_from_last_slash p 0 (-1)) as [[Hr Hs]|[Hr Hs]]; cbv zeta in *.
  - rewrite Hr. exact Hs.
  - now replace (PosixPath.rfind_from PosixPath.sep p 0 (-1) + 1)
      with (PosixPath.rfind_from PosixPath.sep p 0 (-1) - 0 + 1) by lia.
Qed.

Lemma append_inv_tail (a b s : string) :
  (a ++ s)%string = (b ++ s)%string -> a = b.
Proof.
  intros E.
  assert (L : list_ascii_of_string a = list_ascii_of_string b).
  { apply (app_inv_tail (list_ascii_of_string s)).
    now rewrite <- !list_ascii_of_append, E. }
  now rewrite <- (string_of_list_ascii_of_string a), L,
    string_of_list_ascii_of_string.
Qed.

Lemma out_ratio_join cfg file bn :
  out_ratio cfg file bn
  = PosixPath.join (out_dir cfg) (PosixPath.basename file ++ ratio_suffix cfg).
Proof. unfold out_ratio, ratio_suffix. now destruct (do_stackreg cfg). Qed.

(** The output path of a file is the output folder joined with the file
    name of the input (extension kept) and the suffix; its own file name
    is that name, and two inputs get the same output path exactly when
    their file names are equal, whatever directories they come from. *)
Theorem output_name_from_file_name cfg file file' bn bn' :
  out_ratio cfg file bn
  = PosixPath.join (out_dir cfg) (PosixPath.basename file ++ ratio_suffix cfg)
  /\ PosixPath.basename (out_ratio cfg file bn)
     = (PosixPath.basename file ++ ratio_suffix cfg)%string
  /\ (out_ratio cfg file bn = out_ratio cfg file' bn'
      <-> PosixPath.basename file = PosixPath.basename file').
Proof.
  assert (E : forall f b,
            out_ratio cfg f b
            = PosixPath.join (out_dir cfg)
                (PosixPath.basename f ++ ratio_suffix cfg)).
  { intros f b. apply out_ratio_join. }
  assert (B : forall f b,
            PosixPath.basename (out_ratio cfg f b)
            = (PosixPath.basename f ++ ratio_suffix cfg)%string).
  { intros f b. rewrite E. apply basename_join.
    rewrite slash_free_append, basename_slash_free.
    unfold ratio_suffix. now destruct (do_stackreg cfg). }
  split; [apply E|]. split; [apply B|]. split.
  - intros Heq. apply (f_equal PosixPath.basename) in Heq.
    rewrite !B in Heq. now apply append_inv_tail in Heq.
  - intros Heq. now rewrite !E, Heq.
Qed.

(** In any world, whatever fails, the script only ever saves a result
    image, as "Tiff", under the output name of one of the files
    [getFileList] returned; nothing else is written (the calibration name
    of line 265 is never used). *)
Theorem saves_only_results_of_found_files cfg w imp format path :
  In (IJ_saveAs imp format path) (fst (run cfg w)) ->
  format = "Tiff"
  /\ img_role imp = ImpResult
  /\ exists file,
       In file (listed (fs w) (src_dir cfg) (filename_filter cfg))
       /\ path = PosixPath.join (out_dir cfg)
                   (PosixPath.basename file ++ ratio_suffix cfg).
Proof.
  intros Hin. apply run_calls_sound in Hin. cbn [call_sound] in Hin.
  destruct Hin as (Hf & Hr & file & Hfile & ->).
  split; [exact Hf|]. split; [exact Hr|]. exists file. split; [exact Hfile|].
  apply out_ratio_join.
Qed.

Lemma saves_only_results_of_found_files_witness :
  "Tiff" = "Tiff"
  /\ ImpResult = ImpResult
  /\ exists file,
       In file (listed sample_tree "/in" "nd2")
       /\ "/out/sample.nd2_ratio.tif"
          = PosixPath.join "/out"
              (PosixPath.basename file
                 ++ ratio_suffix (sample_config "Fully manual" false)).
Proof.
  apply (saves_only_results_of_found_files
           (sample_config "Fully manual" false)
           (sample_world (1.5%float, 7%float))
           (mkImg 0 0 ImpResult) "Tiff" "/out/sample.nd2_ratio.tif").
  apply (nth_error_In _ 43). vm_compute. reflexivity.
Defined.

(** ** The order of the file list *)

(** For a suffix without wildcards, the list of a directory is its own
    matching files, in listing order, followed by the lists of its
    sub-directories, one after the other in listing order: the walk is top
    down and a file is never listed before the files of a directory above
    it. *)
Theorem getFileList_top_down d entries directory suffix :
  meta_free suffix = true ->
  getFileList (Dir d entries) directory suffix
  = Some (map (fun f => PosixPath.join directory f)
            (List.filter (fun name => PosixPath.endswith name suffix)
               (filenames entries))
          ++ flat_map (fun e => match e with
                                | File _ => []
                                | Dir sub _ =>
                                    listed e (PosixPath.join directory sub) suffix
                                end) entries).
Proof.
  intros Hm. unfold getFileList.
  rewrite (getFileList_loop_suffix _ suffix [] Hm), os_walk_Dir.
  cbn [app flat_map fst snd]. do 2 f_equal.
  rewrite flat_map_flat_map. apply flat_map_ext. intros [f|sub es].
  - reflexivity.
  - unfold listed, getFileList.
    now rewrite (getFileList_loop_suffix _ suffix [] Hm).
Qed.

Lemma getFileList_top_down_witness :
  getFileList sample_tree "/in" "nd2"
  = Some (map (fun f => PosixPath.join "/in" f)
            (List.filter (fun name => PosixPath.endswith name "nd2")
               (filenames [File "sample.nd2";
                           Dir "sub" [File "other.nd2"; File "notes.txt"]]))
          ++ flat_map (fun e => match e with
                                | File _ => []
                                | Dir sub _ =>
                                    listed e (PosixPath.join "/in" sub) "nd2"
                                end)
               [File "sample.nd2"; Dir "sub" [File "other.nd2"; File "notes.txt"]]).
Proof.
  apply (getFileList_top_down "in"
           [File "sample.nd2"; Dir "sub" [File "other.nd2"; File "notes.txt"]]
           "/in" "nd2").
  reflexivity.
Defined.

(** ** The order in which series are opened, in any world *)

Lemma for_prefix {B A : Type} (project : event -> list B) (l : list A)
    (body : A -> M unit) (per_item : A -> list B) :
  (forall a g, In a l ->
     wp (body a) g
       (fun t o => match o with
                   | Ok _ _ => flat_map project t = per_item a
                   | Raise _ => exists rest,
                       per_item a = flat_map project t ++ rest
                   end)) ->
  forall g,
    wp (for_ l body) g
      (fun t o => match o with
                  | Ok _ _ => flat_map project t = flat_map per_item l
                  | Raise _ => exists rest,
                      flat_map per_item l = flat_map project t ++ rest
                  end).
Proof.
  induction l as [|a l IH]; intros Hb g.
  - apply wp_ret. reflexivity.
  - cbn [for_ flat_map]. apply wp_bind.
    apply (wp_conseq _ _ _ _ (Hb a g (or_introl eq_refl))).
    intros t [[] g1|e] Ht.
    + apply (wp_conseq _ _ _ _
               (IH (fun a' g' Hin => Hb a' g' (or_intror Hin)) g1)).
      intros t2 [[] g2|e2] Ht2; rewrite flat_map_app, Ht.
      * now rewrite Ht2.
      * destruct Ht2 as [rest ->]. exists rest. now rewrite app_assoc.
    + destruct Ht as [rest ->]. exists (rest ++ flat_map per_item l).
      now rewrite app_assoc.
Qed.

Lemma series_body_opens cfg w fid file bn n idx s sn g :
  n <> 0 ->
  nth_error idx (Z.to_nat s) = Some sn ->
  wp (series_body cfg w fid file bn n idx s) g
    (fun t o => match o with
                | Ok _ _ => opens t = [(file, sn, mkImg fid s Imp)]
                | Raise _ => exists rest,
                    [(file, sn, mkImg fid s Imp)] = opens t ++ rest
                end).
Proof.
  intros Hn Hs.
  unfold series_body, progress_bar, py_index, open_single_series_with_BF.
  destruct (Z.eqb_spec n 0); [contradiction|]. rewrite Hs.
  apply wp_bind, wp_call; intros F1; [now eexists|].
  apply wp_bind, wp_ret, wp_bind, wp_bind, wp_call; intros F2; [now eexists|].
  apply wp_ret.
  apply (wp_conseq _ _
           (fun t _ => Forall (fun ev => forall p k i, ev <> BF_openImagePlus p k i) t)).
  - apply emits_wp. unfold threshold_block.
    emits; intros p k i; discriminate.
  - intros t o Ht.
    assert (Hnone : opens t = []).
    { unfold opens. induction Ht as [|ev t Hev _ IH]; [reflexivity|].
      cbn [flat_map]. rewrite IH. destruct ev; try reflexivity.
      now elim (Hev path series_number imp). }
    cbn [app]. unfold opens in *. cbn [flat_map app].
    rewrite ?flat_map_app, Hnone. cbn [flat_map app].
    destruct o; [reflexivity | now exists []].
Qed.

Lemma get_series_info_only_reader w path :
  emits_only (fun ev => is_reader_call ev = true)
    (get_series_info_from_ome_metadata w path).
Proof.
  unfold get_series_info_from_ome_metadata. emits; reflexivity.
Qed.

Lemma file_body_opens cfg w n_files fid file g :
  n_files <> 0 ->
  wp (file_body cfg w n_files (fid, file)) g
    (fun t o =>
       let expected :=
         map (fun s => (file, offset (resolution_count w file) s, mkImg fid s Imp))
           (py_range (series_count w file)) in
       match o with
       | Ok _ _ => opens t = expected
       | Raise _ => exists rest, expected = opens t ++ rest
       end).
Proof.
  intros Hn. unfold file_body, progress_bar.
  destruct (Z.eqb_spec n_files 0); [contradiction|].
  apply wp_bind, wp_call; intros F1; [now eexists|].
  apply wp_bind.
  assert (R := get_series_info_any w file g). cbv zeta in R.
  assert (Fr := get_series_info_only_reader w file g).
  apply (wp_of_eq _ _ _ _ _
           (surjective_pairing (get_series_info_from_ome_metadata w file g))).
  set (tr := fst (get_series_info_from_ome_metadata w file g)) in *.
  assert (Hnone : opens tr = []).
  { unfold opens. clearbody tr. clear R.
    induction Fr as [|ev t Hev _ IH]; [reflexivity|].
    cbn [flat_map]. rewrite IH. now destruct ev. }
  destruct (snd (get_series_info_from_ome_metadata w file g)) as [v g'|e].
  2:{ cbn [app]. unfold opens in *. cbn [flat_map app]. rewrite Hnone.
      now eexists. }
  destruct R as (-> & -> & _). rewrite series_info_table.
  apply wp_bind, wp_get_pad_number. apply wp_bind.
  assert (Hloop : forall g1,
            wp (for_ (py_range (series_count w file))
                  (series_body cfg w fid file
                     (fst (PosixPath.splitext (PosixPath.basename file)))
                     (series_count w file)
                     (map (offset (resolution_count w file))
                        (py_range (series_count w file))))) g1
              (fun t2 o2 =>
                 match o2 with
                 | Ok _ _ =>
                     opens (Progress_log 1 ("Processing: " ++ py_str_int fid)
                              (30 * (fid + 1) / n_files)
                              (30 - 30 * (fid + 1) / n_files) (fid + 1) n_files
                            :: tr ++ t2)
                     = map (fun s => (file, offset (resolution_count w file) s,
                                      mkImg fid s Imp))
                         (py_range (series_count w file))
                 | Raise _ =>
                     exists rest,
                       map (fun s => (file, offset (resolution_count w file) s,
                                      mkImg fid s Imp))
                         (py_range (series_count w file))
                       = opens (Progress_log 1 ("Processing: " ++ py_str_int fid)
                                  (30 * (fid + 1) / n_files)
                                  (30 - 30 * (fid + 1) / n_files) (fid + 1) n_files
                                :: tr ++ t2) ++ rest
                 end)).
  { intros g1.
    assert (Hb : forall s g2, In s (py_range (series_count w file)) ->
              wp (series_body cfg w fid file
                    (fst (PosixPath.splitext (PosixPath.basename file)))
                    (series_count w file)
                    (map (offset (resolution_count w file))
                       (py_range (series_count w file))) s) g2
                (fun t o =>
                   match o with
                   | Ok _ _ =>
                       flat_map (fun ev => match ev with
                                           | BF_openImagePlus path k imp =>
                                               [(path, k, imp)]
                                           | _ => []
                                           end) t
                       = [(file, offset (resolution_count w file) s, mkImg fid s Imp)]
                   | Raise _ =>
                       exists rest,
                         [(file, offset (resolution_count w file) s, mkImg fid s Imp)]
                         = flat_map (fun ev => match ev with
                                               | BF_openImagePlus path k imp =>
                                                   [(path, k, imp)]
                                               | _ => []
                                               end) t ++ rest
                   end)).
    { intros s g2 Hin. apply py_range_In in Hin.
      apply series_body_opens; [lia | now rewrite nth_error_map, py_range_nth]. }
    apply (wp_conseq _ _ _ _ (for_prefix _ _ _ _ Hb g1)).
    assert (Hm : forall l : list Z,
              flat_map (fun s => [(file, offset (resolution_count w file) s,
                                   mkImg fid s Imp)]) l
              = map (fun s => (file, offset (resolution_count w file) s,
                               mkImg fid s Imp)) l)
      by (intros l; induction l; simpl; congruence).
    intros t2 o2 Ht2. rewrite Hm in Ht2.
    unfold opens in *. cbn [flat_map app]. rewrite flat_map_app, Hnone.
    exact Ht2. }
  destruct (pad_number g =? 0); unfold when.
  - apply wp_set_pad_number. cbv beta iota. cbn [app]. apply Hloop.
  - apply wp_ret. cbv beta iota. cbn [app]. apply Hloop.
Qed.

(** In any world, whatever fails, the series are opened in the order of
    the sorted file list and, within a file, of the series number, none
    skipped and none twice, each with the absolute index that is the sum of
    the resolution counts of the series before it: what was opened is an
    initial part of that list, and the whole list when the run completes. *)
Theorem series_opened_in_order cfg w :
  let expected :=
    expected_opens w (sorted (listed (fs w) (src_dir cfg) (filename_filter cfg))) in
  match snd (run cfg w) with
  | Ok _ _ => opens (fst (run cfg w)) = expected
  | Raise _ => exists rest, expected = opens (fst (run cfg w)) ++ rest
  end.
Proof.
  cbv zeta. unfold run.
  change (wp (main cfg w) unbound
            (fun t o =>
               match o with
               | Ok _ _ =>
                   opens t = expected_opens w
                     (sorted (listed (fs w) (src_dir cfg) (filename_filter cfg)))
               | Raise _ =>
                   exists rest,
                     expected_opens w
                       (sorted (listed (fs w) (src_dir cfg) (filename_filter cfg)))
                     = opens t ++ rest
               end)).
  unfold main, timed_log, listed.
  apply wp_bind, wp_call; intros F1; [now eexists|].
  apply wp_bind, wp_call; intros F2; [now eexists|].
  apply wp_bind.
  destruct (getFileList (fs w) (src_dir cfg) (filename_filter cfg)) as [files|].
  2:{ apply wp_raise. now exists []. }
  apply wp_ret, wp_bind, wp_set_pad_number, wp_bind, wp_set_thresh_value.
  apply wp_bind.
  destruct files as [|f fs'].
  - apply wp_ret. apply wp_call; intros F3; [now exists []|reflexivity].
  - set (files := f :: fs').
    assert (Hb : forall (item : Z * string) g,
              In item (enumerate (sorted files)) ->
              wp (file_body cfg w (Z.of_nat (List.length files)) item) g
                (fun t o =>
                   match o with
                   | Ok _ _ =>
                       flat_map (fun ev => match ev with
                                           | BF_openImagePlus path k imp =>
                                               [(path, k, imp)]
                                           | _ => []
                                           end) t
                       = map (fun s => (snd item,
                                        offset (resolution_count w (snd item)) s,
                                        mkImg (fst item) s Imp))
                           (py_range (series_count w (snd item)))
                   | Raise _ =>
                       exists rest,
                         map (fun s => (snd item,
                                        offset (resolution_count w (snd item)) s,
                                        mkImg (fst item) s Imp))
                           (py_range (series_count w (snd item)))
                         = flat_map (fun ev => match ev with
                                               | BF_openImagePlus path k imp =>
                                                   [(path, k, imp)]
                                               | _ => []
                                               end) t ++ rest
                   end)).
    { intros [fid file] g _. apply file_body_opens.
      unfold files. simpl List.length. lia. }
    apply (wp_conseq _ _ _ _
             (for_prefix _ _ _ _ Hb (mkGlobals (PyInt 0) None 0))).
    fold (expected_opens w (sorted files)).
    intros t [[] g1|e] Ht.
    + apply wp_call; intros F3; unfold opens in *; cbn [app flat_map];
        rewrite ?flat_map_app, Ht; cbn [flat_map]; rewrite ?app_nil_r;
        [exists []; now rewrite app_nil_r | reflexivity].
    + destruct Ht as [rest Ht]. exists rest.
      unfold opens in *. cbn [app flat_map]. exact Ht.
Qed.
